(** * Power Pet Door client: the frame scanner and the device state machine

    A shallow embedding of [custom_components/powerpetdoor/switch.py]:
    the function [find_end], the receive loop of [PetDoor.data_received],
    and the methods of [PetDoor] that handle connection events, inbound
    messages and outbound commands.

    Python values are modelled as follows.
    - A [str] is a list of characters ([str]); string literals used as dict
      keys and protocol words are [string]s.
    - A [bytes] object is a list of [byte]s.
    - A decoded JSON value is a [json]; Python's [None] is [JNull].  JSON
      numbers are the integers; literals with a fraction or an exponent
      (Python floats) are outside the model.
    - A [dict] is an insertion-ordered association list.
    - A method that mutates [self], performs I/O and may raise is a function
      in the monad [M]: it takes the instance and returns the instance as the
      method left it, the effects it performed in order, and either a value
      or the exception that escaped. *)

From Stdlib Require Import List String Ascii ZArith Bool Lia Sorted.
From Stdlib.Strings Require Import Byte.
Import ListNotations.

Local Open Scope string_scope.
Local Open Scope Z_scope.
Local Open Scope list_scope.

Set Warnings "-register-all".

(** ** Exceptions and results *)

Inductive exn : Type :=
| IndexError (what : string)
| KeyError (key : string)
| TypeError
| NameError (name : string).

Inductive outcome (A : Type) : Type :=
| Ret (a : A)
| Raise (e : exn).

Arguments Ret {A} a.
Arguments Raise {A} e.

(** A Python [str], character by character. *)
Definition str : Type := list ascii.

Definition lbrace : ascii := "{"%char.
Definition rbrace : ascii := "}"%char.

(** ** [find_end] *)

(** The body of [for i, c in enumerate(s)]: [i] is the index of the head of
    [s], [parens] the counter before the head is read. *)
Fixpoint find_end_loop (s : str) (i : nat) (parens : Z) : option nat :=
  match s with
  | [] => None
  | c :: s' =>
      let parens' :=
        if Ascii.eqb c lbrace then parens + 1
        else if Ascii.eqb c rbrace then parens - 1
        else parens in
      if parens' =? 0 then Some (i + 1)%nat
      else find_end_loop s' (S i) parens'
  end.

Definition find_end (s : str) : outcome (option nat) :=
  match s with
  | [] => Ret None
  | c :: _ =>
      if negb (Ascii.eqb c lbrace)
      then Raise (IndexError "Block does not start with '{'")
      else Ret (find_end_loop s 0 0)
  end.

(** The brace depth of a text: the number of opening braces minus the number
    of closing braces. *)
Fixpoint depth (s : str) : Z :=
  match s with
  | [] => 0
  | c :: s' =>
      (if Ascii.eqb c lbrace then 1
       else if Ascii.eqb c rbrace then -1
       else 0) + depth s'
  end.

(** ** JSON values and dicts *)

Inductive json : Type :=
| JNull
| JBool (b : bool)
| JNum (n : Z)
| JStr (s : string)
| JArr (l : list json)
| JObj (d : list (string * json)).

Definition dict : Type := list (string * json).

(** [d.get(k)]: the value stored under [k], if any. *)
Fixpoint dict_get {V : Type} (k : string) (d : list (string * V)) : option V :=
  match d with
  | [] => None
  | (k', v) :: d' => if String.eqb k k' then Some v else dict_get k d'
  end.

(** [k in d]. *)
Definition dict_mem {V : Type} (k : string) (d : list (string * V)) : bool :=
  match dict_get k d with
  | Some _ => true
  | None => false
  end.

(** [d[k] = v]: an existing key keeps its position, a new key goes last. *)
Fixpoint dict_set {V : Type} (k : string) (v : V) (d : list (string * V))
  : list (string * V) :=
  match d with
  | [] => [(k, v)]
  | (k', v') :: d' =>
      if String.eqb k k' then (k', v) :: d' else (k', v') :: dict_set k v d'
  end.

Definition keys {V : Type} (d : list (string * V)) : list string :=
  map fst d.

(** Python's [==] on decoded JSON values.  [True == 1] and [False == 0]
    hold in Python, lists compare element by element, dicts key by key. *)
Fixpoint py_eq (a b : json) {struct a} : bool :=
  match a, b with
  | JNull, JNull => true
  | JBool x, JBool y => Bool.eqb x y
  | JBool x, JNum n => Z.b2z x =? n
  | JNum n, JBool y => n =? Z.b2z y
  | JNum n, JNum m => n =? m
  | JStr s, JStr t => String.eqb s t
  | JArr l, JArr m =>
      (fix all2 (l m : list json) {struct l} : bool :=
         match l, m with
         | [], [] => true
         | x :: l', y :: m' => py_eq x y && all2 l' m'
         | _, _ => false
         end) l m
  | JObj d, JObj e =>
      Nat.eqb (List.length d) (List.length e)
      && (fix sub (d : list (string * json)) {struct d} : bool :=
            match d with
            | [] => true
            | (k, v) :: d' =>
                match dict_get k e with
                | Some w => py_eq v w
                | None => false
                end && sub d'
            end) d
  | _, _ => false
  end.

(** Truth value of a decoded JSON value ([if v:]). *)
Definition py_truthy (v : json) : bool :=
  match v with
  | JNull => false
  | JBool b => b
  | JNum n => negb (n =? 0)
  | JStr s => negb (String.eqb s EmptyString)
  | JArr l => match l with [] => false | _ => true end
  | JObj d => match d with [] => false | _ => true end
  end.

(** [v is None]. *)
Definition is_None (v : json) : bool :=
  match v with
  | JNull => true
  | _ => false
  end.

(** [v in (s1, ..., sn)] for a tuple of string literals. *)
Definition py_in (v : json) (t : list string) : bool :=
  existsb (fun s => py_eq (JStr s) v) t.

(** ** Constants of the module *)

Definition COMMAND : string := "cmd".
Definition CONFIG : string := "config".
Definition PING : string := "PING".

(** ** The instance and its surroundings *)

(** A [datetime]: an instant, in microseconds since the epoch. *)
Definition datetime : Type := Z.

(** A [timedelta], in microseconds, and the value of its [total_seconds()]. *)
Record timedelta : Type := { microseconds : Z }.

Inductive seconds : Type :=
| total_seconds (d : timedelta).

(** The validated platform configuration, as far as the methods read it. *)
Record ConfigType : Type := {
  CONF_RECONNECT : timedelta;
  CONF_KEEP_ALIVE : timedelta;
  CONF_REFRESH : timedelta;
  CONF_HOLD : bool
}.

(** The coroutines of the class, as handed to [ensure_future]. *)
Inductive coroutine : Type :=
| Connect
| Reconnect (delay : seconds)
| Keepalive
| Refresh.

(** The task [ensure_future] returns.  Tasks are told apart by the coroutine
    they wrap only: their identity and completion are not tracked. *)
Inductive task : Type :=
| Task (c : coroutine).

(** An asyncio transport, by an opaque number. *)
Definition transport : Type := nat.

Inductive level : Type := DEBUG | INFO | WARNING | ERROR.

(** What a method does to the world outside the instance.  A log record
    keeps its format string, and its arguments where they are texts. *)
Inductive effect : Type :=
| Log (lvl : level) (fmt : string) (args : list str)
| EnsureFuture (c : coroutine)
| Cancel (t : task)
| TransportWrite (t : transport) (data : dict)
| TransportClose (t : transport)
| ScheduleUpdate (force_refresh : bool)
| LoopRunForever
| LoopClose
| LoopStop.

(** Whether [transport.write] returns or raises [RuntimeError]. *)
Inductive write_result : Type := WriteOk | WriteRuntimeError.

Record PetDoor : Type := mkPetDoor {
  config : ConfigType;
  msgId : Z;
  replyMsgId : json;
  status : json;
  last_change : option datetime;
  settings : json;
  _shutdown : bool;
  _ownLoop : bool;
  _transport : option transport;
  _keepalive : option task;
  _refresh : option task;
  _buffer : str
}.

(** The class attributes: the state of an instance when [__init__] returns.
    The dict behind [settings] belongs to the class until the first
    [GET_SETTINGS] reply; one instance is modelled, so it is not shared. *)
Definition init (cfg : ConfigType) : PetDoor :=
  {| config := cfg; msgId := 1; replyMsgId := JNull; status := JNull;
     last_change := None; settings := JObj []; _shutdown := false;
     _ownLoop := false; _transport := None; _keepalive := None;
     _refresh := None; _buffer := [] |}.

Definition set_msgId (v : Z) (self : PetDoor) : PetDoor :=
  mkPetDoor (config self) v (replyMsgId self) (status self)
    (last_change self) (settings self) (_shutdown self) (_ownLoop self)
    (_transport self) (_keepalive self) (_refresh self) (_buffer self).

Definition set_replyMsgId (v : json) (self : PetDoor) : PetDoor :=
  mkPetDoor (config self) (msgId self) v (status self)
    (last_change self) (settings self) (_shutdown self) (_ownLoop self)
    (_transport self) (_keepalive self) (_refresh self) (_buffer self).

Definition set_status (v : json) (self : PetDoor) : PetDoor :=
  mkPetDoor (config self) (msgId self) (replyMsgId self) v
    (last_change self) (settings self) (_shutdown self) (_ownLoop self)
    (_transport self) (_keepalive self) (_refresh self) (_buffer self).

Definition set_last_change (v : option datetime) (self : PetDoor) : PetDoor :=
  mkPetDoor (config self) (msgId self) (replyMsgId self) (status self)
    v (settings self) (_shutdown self) (_ownLoop self)
    (_transport self) (_keepalive self) (_refresh self) (_buffer self).

Definition set_settings (v : json) (self : PetDoor) : PetDoor :=
  mkPetDoor (config self) (msgId self) (replyMsgId self) (status self)
    (last_change self) v (_shutdown self) (_ownLoop self)
    (_transport self) (_keepalive self) (_refresh self) (_buffer self).

Definition set__shutdown (v : bool) (self : PetDoor) : PetDoor :=
  mkPetDoor (config self) (msgId self) (replyMsgId self) (status self)
    (last_change self) (settings self) v (_ownLoop self)
    (_transport self) (_keepalive self) (_refresh self) (_buffer self).

Definition set__transport (v : option transport) (self : PetDoor) : PetDoor :=
  mkPetDoor (config self) (msgId self) (replyMsgId self) (status self)
    (last_change self) (settings self) (_shutdown self) (_ownLoop self)
    v (_keepalive self) (_refresh self) (_buffer self).

Definition set__keepalive (v : option task) (self : PetDoor) : PetDoor :=
  mkPetDoor (config self) (msgId self) (replyMsgId self) (status self)
    (last_change self) (settings self) (_shutdown self) (_ownLoop self)
    (_transport self) v (_refresh self) (_buffer self).

Definition set__refresh (v : option task) (self : PetDoor) : PetDoor :=
  mkPetDoor (config self) (msgId self) (replyMsgId self) (status self)
    (last_change self) (settings self) (_shutdown self) (_ownLoop self)
    (_transport self) (_keepalive self) v (_buffer self).

Definition set__buffer (v : str) (self : PetDoor) : PetDoor :=
  mkPetDoor (config self) (msgId self) (replyMsgId self) (status self)
    (last_change self) (settings self) (_shutdown self) (_ownLoop self)
    (_transport self) (_keepalive self) (_refresh self) v.

(** ** The monad of methods *)

Definition M (A : Type) : Type :=
  PetDoor -> PetDoor * list effect * outcome A.

Definition ret {A : Type} (a : A) : M A :=
  fun self => (self, [], Ret a).

Definition bind {A B : Type} (m : M A) (f : A -> M B) : M B :=
  fun self =>
    match m self with
    | (self1, e1, Ret a) =>
        match f a self1 with
        | (self2, e2, r) => (self2, e1 ++ e2, r)
        end
    | (self1, e1, Raise e) => (self1, e1, Raise e)
    end.

Definition raise {A : Type} (e : exn) : M A :=
  fun self => (self, [], Raise e).

Definition read {A : Type} (f : PetDoor -> A) : M A :=
  fun self => (self, [], Ret (f self)).

Definition assign (f : PetDoor -> PetDoor) : M unit :=
  fun self => (f self, [], Ret tt).

Definition perform (e : effect) : M unit :=
  fun self => (self, [e], Ret tt).

Definition when (b : bool) (m : M unit) : M unit :=
  if b then m else ret tt.

Definition lift {A : Type} (r : outcome A) : M A :=
  match r with
  | Ret a => ret a
  | Raise e => raise e
  end.

Declare Scope method_scope.
Delimit Scope method_scope with method.
Bind Scope method_scope with M.

Notation "x <- m ;; k" := (bind m (fun x => k))
  (at level 61, m at next level, right associativity) : method_scope.
Notation "m ;; k" := (bind m (fun _ => k))
  (at level 61, right associativity) : method_scope.

Local Open Scope method_scope.

Definition state_of {A : Type} (r : PetDoor * list effect * outcome A)
  : PetDoor := fst (fst r).
Definition effects_of {A : Type} (r : PetDoor * list effect * outcome A)
  : list effect := snd (fst r).
Definition outcome_of {A : Type} (r : PetDoor * list effect * outcome A)
  : outcome A := snd r.

(** ** Subscripting *)

(** [d[k]] on a dict: [KeyError] when the key is missing. *)
Definition getitem (d : dict) (k : string) : M json :=
  match dict_get k d with
  | Some v => ret v
  | None => raise (KeyError k)
  end.

(** [v[k]] with a string key on any decoded value: only a dict accepts it. *)
Definition subscript (v : json) (k : string) : M json :=
  match v with
  | JObj d => getitem d k
  | _ => raise TypeError
  end.

(** [self.settings[k] = v]. *)
Definition settings_setitem (k : string) (v : json) : M unit :=
  s <- read settings ;;
  match s with
  | JObj d => assign (set_settings (JObj (dict_set k v d)))
  | _ => raise TypeError
  end.

(** [t.cancel()] under [if t:], for a task attribute that may be [None]. *)
Definition cancel_if_set (t : option task) : M unit :=
  match t with
  | Some t' => perform (Cancel t')
  | None => ret tt
  end.

(** ** Connection handling *)

Definition start : M unit :=
  assign (set__shutdown false) ;;
  perform (EnsureFuture Connect) ;;
  own <- read _ownLoop ;;
  when own (
    perform (Log INFO "Starting up our own event loop." []) ;;
    perform LoopRunForever ;;
    perform LoopClose ;;
    perform (Log INFO "Connection shut down." [])).

Definition stop : M unit :=
  assign (set__shutdown true) ;;
  own <- read _ownLoop ;;
  if own then
    perform (Log INFO "Shutting down Power Pet Door client connection..." []) ;;
    perform LoopStop
  else
    perform (Log INFO "An event loop was given to us- we will shutdown when that event loop shuts down." []).

(** [ensure_future(self.reconnect(self.config.get(CONF_RECONNECT).total_seconds()))] *)
Definition schedule_reconnect : M unit :=
  cfg <- read config ;;
  perform (EnsureFuture (Reconnect (total_seconds (CONF_RECONNECT cfg)))).

Definition connection_lost : M unit :=
  down <- read _shutdown ;;
  when (negb down) (
    perform (Log ERROR "The server closed the connection. Reconnecting..." []) ;;
    schedule_reconnect).

Definition handle_connect_failure : M unit :=
  down <- read _shutdown ;;
  when (negb down) (
    perform (Log ERROR "Unable to connect to power pet door. Reconnecting..." []) ;;
    schedule_reconnect).

(** The last statement is [self_.buffer = '']: the name [self_] is bound
    nowhere, so evaluating it raises [NameError]. *)
Definition disconnect : M unit :=
  perform (Log DEBUG "Closing connection with server..." []) ;;
  ka <- read _keepalive ;;
  match ka with
  | Some t => perform (Cancel t) ;; assign (set__keepalive None)
  | None => ret tt
  end ;;
  rf <- read _refresh ;;
  match rf with
  | Some t => perform (Cancel t) ;; assign (set__refresh None)
  | None => ret tt
  end ;;
  tr <- read _transport ;;
  match tr with
  | Some t => perform (TransportClose t) ;; assign (set__transport None)
  | None => ret tt
  end ;;
  raise (NameError "self_").

(** ** Sending *)

(** [wr] says how the transport answers the write, were it attempted. *)
Definition send_data (wr : write_result) (data : dict) : M unit :=
  tr <- read _transport ;;
  match tr with
  | None =>
      perform (Log WARNING "Attempted to write to the stream without a connection active" [])
  | Some t =>
      ka <- read _keepalive ;;
      cancel_if_set ka ;;
      perform (Log DEBUG "TX > {0}" []) ;;
      match wr with
      | WriteOk =>
          perform (TransportWrite t data) ;;
          perform (EnsureFuture Keepalive) ;;
          assign (set__keepalive (Some (Task Keepalive)))
      | WriteRuntimeError =>
          perform (Log ERROR "Failed to write to the stream. Reconnecting. ({0}) " []) ;;
          down <- read _shutdown ;;
          when (negb down) schedule_reconnect
      end
  end.

(** The dict literal [{ type: arg, "msgId": msgId, "dir": "p2d" }]. *)
Definition outbound (type arg : string) (id : Z) : dict :=
  dict_set "dir" (JStr "p2d")
    (dict_set "msgId" (JNum id)
       (dict_set type (JStr arg) [])).

Definition send_message (wr : write_result) (type arg : string) : M Z :=
  id <- read msgId ;;
  assign (fun self => set_msgId (msgId self + 1) self) ;;
  send_data wr (outbound type arg id) ;;
  ret id.

Definition connection_made (wr : write_result) (t : transport) : M unit :=
  perform (Log INFO "Connection Successful!" []) ;;
  assign (set__transport (Some t)) ;;
  perform (EnsureFuture Keepalive) ;;
  assign (set__keepalive (Some (Task Keepalive))) ;;
  send_message wr CONFIG "GET_SETTINGS" ;;
  ret tt.

(** ** Inbound messages *)

(** [now] is what [datetime.now(timezone.utc)] returns, were it called. *)
Definition process_message (now : datetime) (msg : dict) : M unit :=
  when (dict_mem "msgID" msg) (
    v <- getitem msg "msgID" ;;
    assign (set_replyMsgId v)) ;;
  success <- getitem msg "success" ;;
  if py_eq success (JStr "true") then
    cmd <- getitem msg "CMD" ;;
    when (py_in cmd ["GET_DOOR_STATUS"; "DOOR_STATUS"]) (
      old <- read status ;;
      changed <- (if negb (is_None old)
                  then v <- getitem msg "door_status" ;;
                       ret (negb (py_eq old v))
                  else ret false) ;;
      when changed (assign (set_last_change (Some now))) ;;
      v <- getitem msg "door_status" ;;
      assign (set_status v) ;;
      perform (ScheduleUpdate false)) ;;
    cmd <- getitem msg "CMD" ;;
    when (py_eq cmd (JStr "GET_SETTINGS")) (
      rf <- read _refresh ;;
      cancel_if_set rf ;;
      v <- getitem msg "settings" ;;
      assign (set_settings v) ;;
      perform (Log INFO "DOOR SETTINGS - {}" []) ;;
      cur <- read status ;;
      perform (ScheduleUpdate (is_None cur)) ;;
      perform (EnsureFuture Refresh) ;;
      assign (set__refresh (Some (Task Refresh)))) ;;
    cmd <- getitem msg "CMD" ;;
    when (py_in cmd ["GET_SENSORS"; "ENABLE_INSIDE"; "DISABLE_INSIDE";
                     "ENABLE_OUTSIDE"; "DISABLE_OUTSIDE"]) (
      when (dict_mem "inside" msg) (
        v <- getitem msg "inside" ;;
        settings_setitem "inside"
          (JStr (if py_truthy v then "true" else "false"))) ;;
      when (dict_mem "outside" msg) (
        v <- getitem msg "outside" ;;
        settings_setitem "outside"
          (JStr (if py_truthy v then "true" else "false"))) ;;
      perform (ScheduleUpdate false)) ;;
    cmd <- getitem msg "CMD" ;;
    when (py_in cmd ["GET_POWER"; "POWER_ON"; "POWER_OFF"]) (
      when (dict_mem "power_state" msg) (
        v <- getitem msg "power_state" ;;
        settings_setitem "power_state" v) ;;
      perform (ScheduleUpdate false)) ;;
    cmd <- getitem msg "CMD" ;;
    when (py_in cmd ["GET_TIMERS_ENABLED"; "ENABLE_TIMERS"; "DISABLE_TIMERS"]) (
      when (dict_mem "timersEnabled" msg) (
        v <- getitem msg "timersEnabled" ;;
        settings_setitem "timersEnabled" v) ;;
      perform (ScheduleUpdate false))
  else
    perform (Log WARNING "Error reported: {}" []).

(** ** Receiving *)

Definition is_ascii (b : byte) : bool := (Byte.to_N b <? 128)%N.

(** [rawdata.decode('ascii')]: [None] stands for [UnicodeDecodeError]. *)
Definition decode_ascii (rawdata : list byte) : option str :=
  if forallb is_ascii rawdata
  then Some (map ascii_of_byte rawdata)
  else None.

(** [rawdata != '']: a [bytes] object never equals a [str]. *)
Definition bytes_ne_str (rawdata : list byte) (s : str) : bool := true.

Section Receive.

(** What is done with an extracted block, after it was logged:
    [self.process_message(json.loads(block))], with the handler of
    [json.JSONDecodeError] around it. *)
Variable process_block : str -> M unit.

(** The [while end:] loop, the call of [find_end] that precedes each test
    included.  The buffer loses at least one character per round, so
    one round more than its length is never used up. *)
Fixpoint receive_loop (fuel : nat) : M unit :=
  match fuel with
  | O => ret tt
  | S fuel' =>
      buf <- read _buffer ;;
      end_ <- lift (find_end buf) ;;
      match end_ with
      | None => ret tt
      | Some O => ret tt
      | Some (S _ as e) =>
          assign (set__buffer (skipn e buf)) ;;
          perform (Log DEBUG "Parsing: {block}" [firstn e buf]) ;;
          process_block (firstn e buf) ;;
          receive_loop fuel'
      end
  end.

Definition data_received (rawdata : list byte) : M unit :=
  when (bytes_ne_str rawdata []) (
    match decode_ascii rawdata with
    | None => perform (Log ERROR "Received invalid message. Skipping." [])
    | Some data =>
        perform (Log DEBUG "----------------------------------------" []) ;;
        perform (Log DEBUG "RX < {0}" [data]) ;;
        assign (fun self => set__buffer (_buffer self ++ data) self) ;;
        buf <- read _buffer ;;
        receive_loop (S (List.length buf))
    end).

(** Successive calls of [data_received], one per chunk read. *)
Fixpoint feed (chunks : list (list byte)) : M unit :=
  match chunks with
  | [] => ret tt
  | c :: chunks' => data_received c ;; feed chunks'
  end.

End Receive.

(** The block a debug record of the receive loop names. *)
Definition block_of (e : effect) : list str :=
  match e with
  | Log DEBUG fmt [b] =>
      if String.eqb fmt "Parsing: {block}" then [b] else []
  | _ => []
  end.

(** The blocks the receive loop extracted, read off its debug records. *)
Definition parsed (effs : list effect) : list str :=
  flat_map block_of effs.

(** ** Views and commands *)

Definition is_on (self : PetDoor) : bool :=
  negb (py_in (status self) ["DOOR_IDLE"; "DOOR_CLOSED"]).

Definition async_update (wr : write_result) : M unit :=
  perform (Log DEBUG "Requesting update of door status" []) ;;
  send_message wr CONFIG "GET_DOOR_STATUS" ;; ret tt.

Definition cmd_open (wr : write_result) : M unit :=
  send_message wr COMMAND "OPEN" ;; ret tt.

Definition cmd_open_and_hold (wr : write_result) : M unit :=
  send_message wr COMMAND "OPEN_AND_HOLD" ;; ret tt.

Definition cmd_close (wr : write_result) : M unit :=
  send_message wr COMMAND "CLOSE" ;; ret tt.

Definition config_disable_inside (wr : write_result) : M unit :=
  send_message wr CONFIG "DISABLE_INSIDE" ;; ret tt.

Definition config_enable_inside (wr : write_result) : M unit :=
  send_message wr CONFIG "ENABLE_INSIDE" ;; ret tt.

Definition config_toggle_inside (wr : write_result) : M unit :=
  s <- read settings ;;
  when (py_truthy s) (
    v <- subscript s "inside" ;;
    if py_eq v (JStr "true") then config_disable_inside wr
    else
      v <- subscript s "inside" ;;
      if py_eq v (JStr "false") then config_enable_inside wr
      else ret tt).

Definition config_disable_outside (wr : write_result) : M unit :=
  send_message wr CONFIG "DISABLE_OUTSIDE" ;; ret tt.

Definition config_enable_outside (wr : write_result) : M unit :=
  send_message wr CONFIG "ENABLE_OUTSIDE" ;; ret tt.

Definition config_toggle_outside (wr : write_result) : M unit :=
  s <- read settings ;;
  when (py_truthy s) (
    v <- subscript s "outside" ;;
    if py_eq v (JStr "true") then config_disable_outside wr
    else
      v <- subscript s "outside" ;;
      if py_eq v (JStr "false") then config_enable_outside wr
      else ret tt).

Definition config_disable_auto (wr : write_result) : M unit :=
  send_message wr CONFIG "DISABLE_TIMERS" ;; ret tt.

Definition config_enable_auto (wr : write_result) : M unit :=
  send_message wr CONFIG "ENABLE_TIMERS" ;; ret tt.

Definition config_toggle_auto (wr : write_result) : M unit :=
  s <- read settings ;;
  when (py_truthy s) (
    v <- subscript s "timersEnabled" ;;
    if py_eq v (JStr "true") then config_disable_auto wr
    else
      v <- subscript s "timersEnabled" ;;
      if py_eq v (JStr "false") then config_enable_auto wr
      else ret tt).

Definition config_power_on (wr : write_result) : M unit :=
  send_message wr CONFIG "POWER_ON" ;; ret tt.

Definition config_power_off (wr : write_result) : M unit :=
  send_message wr CONFIG "POWER_OFF" ;; ret tt.

Definition config_power_toggle (wr : write_result) : M unit :=
  s <- read settings ;;
  when (py_truthy s) (
    v <- subscript s "power_state" ;;
    if py_eq v (JStr "true") then config_power_off wr
    else
      v <- subscript s "power_state" ;;
      if py_eq v (JStr "false") then config_power_on wr
      else ret tt).

(** ** Calls made on an instance *)

(** The entry points through which the event loop, the dispatcher and the
    coroutines of the class drive an instance. *)
Inductive call : Type :=
| CallStart
| CallStop
| CallConnectionMade (wr : write_result) (t : transport)
| CallConnectionLost
| CallHandleConnectFailure
| CallDisconnect
| CallSendData (wr : write_result) (data : dict)
| CallSendMessage (wr : write_result) (type arg : string)
| CallProcessMessage (now : datetime) (msg : dict)
| CallAsyncUpdate (wr : write_result)
| CallCmdOpen (wr : write_result)
| CallCmdOpenAndHold (wr : write_result)
| CallCmdClose (wr : write_result)
| CallConfigDisableInside (wr : write_result)
| CallConfigEnableInside (wr : write_result)
| CallConfigToggleInside (wr : write_result)
| CallConfigDisableOutside (wr : write_result)
| CallConfigEnableOutside (wr : write_result)
| CallConfigToggleOutside (wr : write_result)
| CallConfigDisableAuto (wr : write_result)
| CallConfigEnableAuto (wr : write_result)
| CallConfigToggleAuto (wr : write_result)
| CallConfigPowerOn (wr : write_result)
| CallConfigPowerOff (wr : write_result)
| CallConfigPowerToggle (wr : write_result).

(** A call of [send_message] returns the id it assigned; the other entry
    points return nothing. *)
Definition perform_call (c : call) : M (option Z) :=
  match c with
  | CallStart => start ;; ret None
  | CallStop => stop ;; ret None
  | CallConnectionMade wr t => connection_made wr t ;; ret None
  | CallConnectionLost => connection_lost ;; ret None
  | CallHandleConnectFailure => handle_connect_failure ;; ret None
  | CallDisconnect => disconnect ;; ret None
  | CallSendData wr data => send_data wr data ;; ret None
  | CallSendMessage wr type arg =>
      id <- send_message wr type arg ;; ret (Some id)
  | CallProcessMessage now msg => process_message now msg ;; ret None
  | CallAsyncUpdate wr => async_update wr ;; ret None
  | CallCmdOpen wr => cmd_open wr ;; ret None
  | CallCmdOpenAndHold wr => cmd_open_and_hold wr ;; ret None
  | CallCmdClose wr => cmd_close wr ;; ret None
  | CallConfigDisableInside wr => config_disable_inside wr ;; ret None
  | CallConfigEnableInside wr => config_enable_inside wr ;; ret None
  | CallConfigToggleInside wr => config_toggle_inside wr ;; ret None
  | CallConfigDisableOutside wr => config_disable_outside wr ;; ret None
  | CallConfigEnableOutside wr => config_enable_outside wr ;; ret None
  | CallConfigToggleOutside wr => config_toggle_outside wr ;; ret None
  | CallConfigDisableAuto wr => config_disable_auto wr ;; ret None
  | CallConfigEnableAuto wr => config_enable_auto wr ;; ret None
  | CallConfigToggleAuto wr => config_toggle_auto wr ;; ret None
  | CallConfigPowerOn wr => config_power_on wr ;; ret None
  | CallConfigPowerOff wr => config_power_off wr ;; ret None
  | CallConfigPowerToggle wr => config_power_toggle wr ;; ret None
  end.

(** A history of calls.  An exception ends the call that raised it and no
    other; the instance stays as that call left it.  The result carries the
    final instance, all effects in order, and the ids that the direct calls
    of [send_message] returned, in order. *)
Fixpoint run (cs : list call) (self : PetDoor)
  : PetDoor * list effect * list Z :=
  match cs with
  | [] => (self, [], [])
  | c :: cs' =>
      match perform_call c self with
      | (self1, e1, r) =>
          match run cs' self1 with
          | (self2, e2, ids) =>
              (self2, e1 ++ e2,
               match r with
               | Ret (Some id) => id :: ids
               | _ => ids
               end)
          end
      end
  end.

Definition is_start (c : call) : bool :=
  match c with
  | CallStart => true
  | _ => false
  end.

Definition reconnect_of (e : effect) : list seconds :=
  match e with
  | EnsureFuture (Reconnect d) => [d]
  | _ => []
  end.

(** The reconnects an effect list schedules, by their delays. *)
Definition reconnects (effs : list effect) : list seconds :=
  flat_map reconnect_of effs.

(** Inbound messages processed one after the other. *)
Fixpoint process_all (msgs : list (datetime * dict)) (self : PetDoor)
  : PetDoor :=
  match msgs with
  | [] => self
  | (now, msg) :: msgs' =>
      process_all msgs' (state_of (process_message now msg self))
  end.

(** [k in v] for the settings attribute, when it holds a mapping. *)
Definition has_key (k : string) (v : json) : bool :=
  match v with
  | JObj d => dict_mem k d
  | _ => false
  end.

Definition write_of (e : effect) : list dict :=
  match e with
  | TransportWrite _ data => [data]
  | _ => []
  end.

(** The messages a list of effects wrote to the transport. *)
Definition written (effs : list effect) : list dict :=
  flat_map write_of effs.

(** The three parts of the result of a history. *)
Definition run_state (r : PetDoor * list effect * list Z) : PetDoor :=
  fst (fst r).
Definition run_effects (r : PetDoor * list effect * list Z) : list effect :=
  snd (fst r).
Definition run_ids (r : PetDoor * list effect * list Z) : list Z :=
  snd r.

(** A successful reply to a door-status request, or a door-status push. *)
Definition door_status_event (cmd : string) (v : json) : dict :=
  [("CMD", JStr cmd); ("success", JStr "true"); ("door_status", v)].

(** A successful reply to [GET_SETTINGS] that carries a settings field. *)
Definition is_settings_reply (msg : dict) : Prop :=
  dict_get "success" msg = Some (JStr "true")
  /\ dict_get "CMD" msg = Some (JStr "GET_SETTINGS")
  /\ dict_get "settings" msg <> None.

(** ** Brace blocks *)

(** Texts whose braces are matched. *)
Inductive balanced : str -> Prop :=
| balanced_nil : balanced []
| balanced_char (c : ascii) (s : str) :
    c <> lbrace -> c <> rbrace -> balanced s -> balanced (c :: s)
| balanced_nest (s t : str) :
    balanced s -> balanced t -> balanced (lbrace :: s ++ rbrace :: t).

(** One block: an opening brace, a balanced body, the closing brace. *)
Definition block (s : str) : Prop :=
  exists body, balanced body /\ s = lbrace :: body ++ [rbrace].




(** ** The default configuration *)

(** [DEFAULT_RECONNECT_TIMEOUT], [DEFAULT_KEEP_ALIVE_TIMEOUT],
    [DEFAULT_REFRESH_TIMEOUT] (30, 30 and 300 seconds) and [DEFAULT_HOLD]. *)
Definition default_config : ConfigType :=
  {| CONF_RECONNECT := {| microseconds := 30000000 |};
     CONF_KEEP_ALIVE := {| microseconds := 30000000 |};
     CONF_REFRESH := {| microseconds := 300000000 |};
     CONF_HOLD := true |}.

(** ** Relations between the instance before and after a method *)

(** [sat R m]: whatever the instance, [R] relates it to the instance [m]
    leaves behind and to the effects of [m], whether [m] returns or
    raises. *)
Definition sat {A : Type} (R : PetDoor -> PetDoor -> list effect -> Prop)
    (m : M A) : Prop :=
  forall self, R self (state_of (m self)) (effects_of (m self)).

(** The counter of message ids does not go down. *)
Definition msgId_grows (a b : PetDoor) (_ : list effect) : Prop :=
  msgId a <= msgId b.

(** Once shut down, an instance stays so and schedules no reconnect. *)
Definition stays_down (a b : PetDoor) (e : list effect) : Prop :=
  _shutdown a = true -> _shutdown b = true /\ reconnects e = [].

(** No key leaves the settings mapping. *)
Definition keeps_keys (a b : PetDoor) (_ : list effect) : Prop :=
  forall k, has_key k (settings a) = true -> has_key k (settings b) = true.

(** The receive buffer is left alone and no parsing record is written. *)
Definition leaves_buffer (a b : PetDoor) (e : list effect) : Prop :=
  _buffer b = _buffer a /\ parsed e = [].

(** [self.config.get(CONF_RECONNECT).total_seconds()] *)
Definition reconnect_delay (self : PetDoor) : seconds :=
  total_seconds (CONF_RECONNECT (config self)).

(** * The rest of the module *)

(** ** Connecting *)

Definition set__ownLoop (v : bool) (self : PetDoor) : PetDoor :=
  mkPetDoor (config self) (msgId self) (replyMsgId self) (status self)
    (last_change self) (settings self) (_shutdown self) v
    (_transport self) (_keepalive self) (_refresh self) (_buffer self).

(** How an attempt to connect ends.  The event loop calls
    [connection_made] with the new transport before [create_connection]
    returns; the time-out and every exception end in the [except] clause. *)
Inductive connect_result : Type :=
| Connected (wr : write_result) (t : transport)
| ConnectFailed.

Definition connect (res : connect_result) : M unit :=
  perform (Log INFO "Started to connect to Power Pet Door... at {0}:{1}" []) ;;
  match res with
  | Connected wr t => connection_made wr t
  | ConnectFailed => handle_connect_failure
  end.

(** [await asyncio.sleep(delay)], between the two calls, only lets time
    pass. *)
Definition reconnect (delay : seconds) (res : connect_result) : M unit :=
  disconnect ;;
  connect res.

(** The part of [async_added_to_hass] that acts on the instance; the
    signals it connects are [subscriptions] below. *)
Definition async_added_to_hass : M unit :=
  perform (Log INFO "Latching onto an existing event loop." []) ;;
  assign (set__ownLoop false) ;;
  start.

Definition async_will_remove_from_hass : M unit :=
  stop.

(** ** Views *)

(** [self._transport and not self._transport.is_closing()]: [None] without
    a transport, a boolean otherwise.  [is_closing] is the answer of the
    transport. *)
Definition available (is_closing : bool) (self : PetDoor) : json :=
  match _transport self with
  | None => JNull
  | Some _ => JBool (negb is_closing)
  end.

Definition icon (self : PetDoor) : string :=
  if is_on self then "mdi:dog-side" else "mdi:dog-side-off".

(** [data[k] = x] on a decoded value. *)
Definition py_setitem (data : json) (k : string) (x : json) : outcome json :=
  match data with
  | JObj d => Ret (JObj (dict_set k x d))
  | _ => Raise TypeError
  end.

(** [isoformat] renders a [datetime]; the copy of the settings is the
    value itself.  A [datetime] is always true. *)
Definition extra_state_attributes (isoformat : datetime -> string)
    (self : PetDoor) : outcome json :=
  let data := settings self in
  match (if py_truthy (status self)
         then py_setitem data "status" (status self)
         else Ret data) with
  | Raise e => Raise e
  | Ret data1 =>
      match last_change self with
      | Some t => py_setitem data1 "last_change" (JStr (isoformat t))
      | None => Ret data1
      end
  end.

(** ** Turning on and off *)

Definition async_turn_on (wr : write_result) (hold : option bool) : M unit :=
  cfg <- read config ;;
  let hold' := match hold with
               | None => CONF_HOLD cfg
               | Some h => h
               end in
  if hold' then cmd_open_and_hold wr else cmd_open wr.

Definition async_turn_off (wr : write_result) : M unit :=
  cmd_close wr.

(** ** Signals and services *)


Definition SIGNAL_INSIDE_ENABLE : string := "POWERPET_ENABLE_INSIDE_{}".
Definition SIGNAL_INSIDE_DISABLE : string := "POWERPET_DISABLE_INSIDE_{}".
Definition SIGNAL_INSIDE_TOGGLE : string := "POWERPET_TOGGLE_INSIDE_{}".
Definition SIGNAL_OUTSIDE_ENABLE : string := "POWERPET_ENABLE_OUTSIDE_{}".
Definition SIGNAL_OUTSIDE_DISABLE : string := "POWERPET_DISABLE_OUTSIDE_{}".
Definition SIGNAL_OUTSIDE_TOGGLE : string := "POWERPET_TOGGLE_OUTSIDE_{}".
Definition SIGNAL_AUTO_ENABLE : string := "POWERPET_ENABLE_AUTO_{}".
Definition SIGNAL_AUTO_DISABLE : string := "POWERPET_DISABLE_AUTO_{}".
Definition SIGNAL_AUTO_TOGGLE : string := "POWERPET_TOGGLE_AUTO_{}".
Definition SIGNAL_POWER_ON : string := "POWERPET_POWER_ON_{}".
Definition SIGNAL_POWER_OFF : string := "POWERPET_POWER_OFF{}".
Definition SIGNAL_POWER_TOGGLE : string := "POWERPET_POWER_TOGGLE_{}".

(** [template.format(arg)] for a template whose only braces are one
    replacement field: the field gives way to [arg]. *)
Fixpoint format (template arg : string) : string :=
  match template with
  | EmptyString => EmptyString
  | String c rest =>
      match rest with
      | String c' rest' =>
          if (Ascii.eqb c lbrace && Ascii.eqb c' rbrace)%bool
          then String.append arg rest'
          else String c (format rest arg)
      | EmptyString => String c EmptyString
      end
  end.









(** ** Histories over the whole class *)

Inductive entry : Type :=
| EntryCall (c : call)
| EntryAddedToHass
| EntryWillRemoveFromHass
| EntryConnect (res : connect_result)
| EntryReconnect (delay : seconds) (res : connect_result)
| EntryTurnOn (wr : write_result) (hold : option bool)
| EntryTurnOff (wr : write_result).

Definition perform_entry (x : entry) : M unit :=
  match x with
  | EntryCall c => perform_call c ;; ret tt
  | EntryAddedToHass => async_added_to_hass
  | EntryWillRemoveFromHass => async_will_remove_from_hass
  | EntryConnect res => connect res
  | EntryReconnect delay res => reconnect delay res
  | EntryTurnOn wr hold => async_turn_on wr hold
  | EntryTurnOff wr => async_turn_off wr
  end.

(** As [run]: an exception ends the entry that raised it and no other. *)
Fixpoint play (xs : list entry) (self : PetDoor) : PetDoor * list effect :=
  match xs with
  | [] => (self, [])
  | x :: xs' =>
      match perform_entry x self with
      | (self1, e1, _) =>
          match play xs' self1 with
          | (self2, e2) => (self2, e1 ++ e2)
          end
      end
  end.

(** An entry that hands a caller's dict to [send_data] as it is. *)
Definition is_raw_send (x : entry) : bool :=
  match x with
  | EntryCall (CallSendData _ _) => true
  | _ => false
  end.

(** Successive calls of [data_received]; one that raises does not keep the
    next from being made.  The result carries the outcome of each. *)
Fixpoint deliver (process_block : str -> M unit)
    (chunks : list (list byte)) (self : PetDoor)
  : PetDoor * list effect * list (outcome unit) :=
  match chunks with
  | [] => (self, [], [])
  | c :: chunks' =>
      match data_received process_block c self with
      | (self1, e1, r) =>
          match deliver process_block chunks' self1 with
          | (self2, e2, rs) => (self2, e1 ++ e2, r :: rs)
          end
      end
  end.

(** ** Traces *)

(** Every write to the transport is followed at once by the scheduling of
    a keepalive. *)
Fixpoint writes_rearmed (effs : list effect) : bool :=
  match effs with
  | [] => true
  | TransportWrite _ _ :: effs' =>
      match effs' with
      | EnsureFuture Keepalive :: effs'' => writes_rearmed effs''
      | _ => false
      end
  | _ :: effs' => writes_rearmed effs'
  end.

(** The [msgId] field of a message, [None] when it has none. *)
Definition wire_id (data : dict) : json :=
  match dict_get "msgId" data with
  | Some v => v
  | None => JNull
  end.


(** What [rawdata.decode('ascii')] adds to the buffer: nothing when the
    decoding fails. *)
Definition decoded (rawdata : list byte) : str :=
  match decode_ascii rawdata with
  | Some data => data
  | None => []
  end.

(** The results of [deliver]. *)
Definition deliver_state (r : PetDoor * list effect * list (outcome unit))
  : PetDoor := fst (fst r).
Definition deliver_effects (r : PetDoor * list effect * list (outcome unit))
  : list effect := snd (fst r).
Definition deliver_outcomes (r : PetDoor * list effect * list (outcome unit))
  : list (outcome unit) := snd r.

(** The buffer holds something that does not start with an opening
    brace. *)
Definition out_of_step (buf : str) : Prop :=
  exists c s, buf = c :: s /\ c <> lbrace.



Definition same_replyMsgId (a b : PetDoor) (_ : list effect) : Prop :=
  replyMsgId b = replyMsgId a.

(** ["true" if v else "false"] *)
Definition true_false (v : json) : json :=
  JStr (if py_truthy v then "true" else "false").

(** [if k in msg: settings[k] = conv(msg[k])] on the dict of the
    settings. *)
Definition merge_setting (conv : json -> json) (k : string) (msg d : dict)
  : dict :=
  match dict_get k msg with
  | Some v => dict_set k (conv v) d
  | None => d
  end.

(** The entries that send: commands, configuration requests, toggles and
    the sending methods themselves. *)
Definition is_command (x : entry) : bool :=
  match x with
  | EntryTurnOn _ _ | EntryTurnOff _ => true
  | EntryCall c =>
      match c with
      | CallStart | CallStop | CallConnectionMade _ _ | CallConnectionLost
      | CallHandleConnectFailure | CallDisconnect
      | CallProcessMessage _ _ => false
      | _ => true
      end
  | _ => false
  end.

(** What the device last reported, and the connection, stay. *)
Definition cached_state_kept (a b : PetDoor) (_ : list effect) : Prop :=
  status b = status a /\ last_change b = last_change a
  /\ settings b = settings a /\ replyMsgId b = replyMsgId a
  /\ _refresh b = _refresh a /\ _buffer b = _buffer a
  /\ _transport b = _transport a /\ _shutdown b = _shutdown a
  /\ config b = config a.

Definition keeps_rearmed (_ _ : PetDoor) (e : list effect) : Prop :=
  writes_rearmed e = true.

(** The ids written between two instances: integers in strictly
    increasing order, from the counter of the first up to, and not
    including, the counter of the second. *)
Definition ids_in_order (a b : PetDoor) (e : list effect) : Prop :=
  msgId a <= msgId b
  /\ exists zs,
       map wire_id (written e) = map JNum zs
       /\ StronglySorted Z.lt zs
       /\ Forall (fun z => msgId a <= z < msgId b) zs.


(** The results of [play]. *)
Definition play_state (r : PetDoor * list effect) : PetDoor := fst r.
Definition play_effects (r : PetDoor * list effect) : list effect := snd r.

(** The twelve signal templates of the module. *)
Definition signal_templates : list string :=
  [ SIGNAL_INSIDE_ENABLE; SIGNAL_INSIDE_DISABLE; SIGNAL_INSIDE_TOGGLE;
    SIGNAL_OUTSIDE_ENABLE; SIGNAL_OUTSIDE_DISABLE; SIGNAL_OUTSIDE_TOGGLE;
    SIGNAL_AUTO_ENABLE; SIGNAL_AUTO_DISABLE; SIGNAL_AUTO_TOGGLE;
    SIGNAL_POWER_ON; SIGNAL_POWER_OFF; SIGNAL_POWER_TOGGLE ].


(** * Properties *)

(** ** [find_end] *)

Lemma depth_firstn_S (c : ascii) (s : str) (k : nat) :
  depth (firstn (S k) (c :: s)) = depth [c] + depth (firstn k s).
Proof.
  rewrite firstn_cons. cbn [depth]. lia.
Qed.

Lemma depth_app (s t : str) : depth (s ++ t) = depth s + depth t.
Proof.
  induction s as [|c s IH]; cbn [depth app]; lia.
Qed.

Lemma find_end_loop_cons (c : ascii) (s : str) (i : nat) (p : Z) :
  find_end_loop (c :: s) i p =
  if p + depth [c] =? 0 then Some (i + 1)%nat
  else find_end_loop s (S i) (p + depth [c]).
Proof.
  cbn [find_end_loop depth].
  destruct (c =? lbrace)%char.
  - replace (p + (1 + 0)) with (p + 1) by lia. reflexivity.
  - destruct (c =? rbrace)%char.
    + replace (p + (-1 + 0)) with (p - 1) by lia. reflexivity.
    + replace (p + (0 + 0)) with p by lia. reflexivity.
Qed.

Lemma find_end_loop_none (s : str) :
  forall (i : nat) (p : Z),
    (forall k, (1 <= k <= List.length s)%nat -> p + depth (firstn k s) <> 0) ->
    find_end_loop s i p = None.
Proof.
  induction s as [|c s IH]; intros i p H; [reflexivity|].
  rewrite find_end_loop_cons.
  assert (H1 := H 1%nat ltac:(cbn [List.length]; lia)).
  rewrite depth_firstn_S in H1. cbn [firstn depth] in H1.
  destruct (Z.eqb_spec (p + depth [c]) 0) as [E|E];
    [cbn [depth] in E; lia|].
  apply IH. intros k Hk.
  specialize (H (S k) ltac:(cbn [List.length]; lia)).
  rewrite depth_firstn_S in H. lia.
Qed.

Lemma find_end_loop_some (s : str) :
  forall (i : nat) (p : Z) (n : nat),
    (1 <= n <= List.length s)%nat ->
    p + depth (firstn n s) = 0 ->
    (forall k, (1 <= k < n)%nat -> p + depth (firstn k s) <> 0) ->
    find_end_loop s i p = Some (i + n)%nat.
Proof.
  induction s as [|c s IH]; intros i p n Hn H0 Hmin;
    cbn [List.length] in Hn; [lia|].
  rewrite find_end_loop_cons.
  destruct n as [|n]; [lia|].
  rewrite depth_firstn_S in H0.
  destruct n as [|n].
  - cbn [firstn depth] in H0.
    destruct (Z.eqb_spec (p + depth [c]) 0) as [E|E];
      [reflexivity|cbn [depth] in E; lia].
  - assert (H1 := Hmin 1%nat ltac:(lia)).
    rewrite depth_firstn_S in H1. cbn [firstn depth] in H1.
    destruct (Z.eqb_spec (p + depth [c]) 0) as [E|E];
      [cbn [depth] in E; lia|].
    rewrite (IH (S i) (p + depth [c]) (S n)).
    + f_equal. lia.
    + lia.
    + lia.
    + intros k Hk. specialize (Hmin (S k) ltac:(lia)).
      rewrite depth_firstn_S in Hmin. lia.
Qed.

(** C7.  [find_end] on the empty buffer returns [None]; on a buffer whose
    first character is not an opening brace it raises [IndexError]; on a
    buffer that starts with an opening brace and whose brace depth is
    non-zero after every non-empty prefix it returns [None]; otherwise it
    returns the length of the shortest non-empty prefix whose brace depth
    is zero. *)
Theorem find_end_edge_cases :
  find_end [] = Ret None
  /\ (forall (c : ascii) (s : str),
        c <> lbrace ->
        find_end (c :: s) = Raise (IndexError "Block does not start with '{'"))
  /\ (forall s : str,
        (forall k, (1 <= k <= List.length (lbrace :: s))%nat ->
                   depth (firstn k (lbrace :: s)) <> 0) ->
        find_end (lbrace :: s) = Ret None)
  /\ (forall (s : str) (n : nat),
        (1 <= n <= List.length (lbrace :: s))%nat ->
        depth (firstn n (lbrace :: s)) = 0 ->
        (forall k, (1 <= k < n)%nat -> depth (firstn k (lbrace :: s)) <> 0) ->
        find_end (lbrace :: s) = Ret (Some n)).
Proof.
  split; [reflexivity|]. split; [|split].
  - intros c s Hc. unfold find_end.
    destruct (Ascii.eqb_spec c lbrace) as [E|E]; [contradiction|reflexivity].
  - intros s H. unfold find_end.
    rewrite Ascii.eqb_refl. cbv [negb]. f_equal.
    apply find_end_loop_none. intros k Hk. specialize (H k Hk). lia.
  - intros s n Hn H0 Hmin. unfold find_end.
    rewrite Ascii.eqb_refl. cbv [negb]. f_equal.
    apply (@find_end_loop_some (lbrace :: s) 0%nat 0 n); [exact Hn|lia|].
    intros k Hk. specialize (Hmin k Hk). lia.
Qed.

Lemma find_end_edge_cases_witness :
  find_end (list_ascii_of_string "xy")
    = Raise (IndexError "Block does not start with '{'")
  /\ find_end (list_ascii_of_string "{a{b}") = Ret None
  /\ find_end (list_ascii_of_string "{a{}b}{c}") = Ret (Some 6%nat).
Proof.
  destruct find_end_edge_cases as (_ & Hraise & Hnone & Hsome).
  split; [|split].
  - apply Hraise. discriminate.
  - apply (Hnone (list_ascii_of_string "a{b}")).
    intros k Hk. simpl in Hk.
    destruct k as [|[|[|[|[|[|k]]]]]]; simpl; try lia; discriminate.
  - apply (Hsome (list_ascii_of_string "a{}b}{c}") 6%nat).
    + simpl. lia.
    + reflexivity.
    + intros k Hk.
      destruct k as [|[|[|[|[|[|k]]]]]]; simpl; try lia; discriminate.
Defined.

(** ** Brace blocks and the receive loop *)

Lemma depth_lbrace : depth [lbrace] = 1.
Proof. reflexivity. Qed.

Lemma depth_rbrace : depth [rbrace] = -1.
Proof. reflexivity. Qed.

Lemma depth_other (c : ascii) : c <> lbrace -> c <> rbrace -> depth [c] = 0.
Proof.
  intros Hl Hr. cbn [depth].
  destruct (Ascii.eqb_spec c lbrace); [contradiction|].
  destruct (Ascii.eqb_spec c rbrace); [contradiction|]. reflexivity.
Qed.

Lemma depth_cons (c : ascii) (s : str) : depth (c :: s) = depth [c] + depth s.
Proof. cbn [depth]. lia. Qed.

Lemma balanced_depth (s : str) : balanced s -> depth s = 0.
Proof.
  induction 1 as [|c s Hl Hr _ IH|s t _ IHs _ IHt].
  - reflexivity.
  - rewrite depth_cons, depth_other by assumption. lia.
  - rewrite depth_cons, depth_app, (depth_cons rbrace), depth_lbrace,
      depth_rbrace. lia.
Qed.

Lemma balanced_prefix_depth (s : str) :
  balanced s -> forall k, 0 <= depth (firstn k s).
Proof.
  induction 1 as [|c s Hl Hr _ IH|s t Hs IHs _ IHt]; intros k.
  - rewrite firstn_nil. reflexivity.
  - destruct k as [|k]; [reflexivity|].
    rewrite depth_firstn_S, depth_other by assumption.
    specialize (IH k). lia.
  - destruct k as [|k]; [reflexivity|].
    rewrite depth_firstn_S, depth_lbrace, firstn_app, depth_app.
    specialize (IHs k).
    destruct (k - List.length s)%nat as [|j] eqn:E.
    + cbn [firstn depth]. lia.
    + rewrite depth_firstn_S, depth_rbrace.
      rewrite firstn_all2 by lia.
      rewrite (balanced_depth _ Hs). specialize (IHt j). lia.
Qed.

Lemma block_length (b : str) : block b -> (2 <= List.length b)%nat.
Proof.
  intros (body & _ & ->). cbn [List.length]. rewrite length_app.
  cbn [List.length]. lia.
Qed.

Lemma block_depth (b : str) : block b -> depth b = 0.
Proof.
  intros (body & Hb & ->).
  rewrite depth_cons, depth_app, depth_lbrace, depth_rbrace,
    (balanced_depth _ Hb). lia.
Qed.

Lemma block_prefix_depth (b : str) (k : nat) :
  block b -> (1 <= k < List.length b)%nat -> 1 <= depth (firstn k b).
Proof.
  intros (body & Hb & ->) Hk.
  cbn [List.length] in Hk. rewrite length_app in Hk. cbn [List.length] in Hk.
  destruct k as [|k]; [lia|].
  rewrite depth_firstn_S, depth_lbrace, firstn_app, depth_app.
  replace (k - List.length body)%nat with 0%nat by lia.
  cbn [firstn depth].
  pose proof (balanced_prefix_depth _ Hb k). lia.
Qed.

Lemma block_head (b : str) : block b -> exists s, b = lbrace :: s.
Proof. intros (body & _ & ->). eauto. Qed.

(** A whole block at the head of the buffer is found, whatever follows. *)
Lemma find_end_block (b rest : str) :
  block b -> find_end (b ++ rest) = Ret (Some (List.length b)).
Proof.
  intros Hb. destruct (block_head _ Hb) as (s & Es).
  pose proof (block_length _ Hb) as Hlen.
  assert (Hpre : forall k, (k <= List.length b)%nat ->
                           firstn k (b ++ rest) = firstn k b).
  { intros k Hk. rewrite firstn_app.
    replace (k - List.length b)%nat with 0%nat by lia.
    cbn [firstn]. apply app_nil_r. }
  unfold find_end. rewrite Es at 1. cbn [app]. rewrite Ascii.eqb_refl.
  cbv [negb]. f_equal.
  apply (find_end_loop_some (b ++ rest) 0%nat 0 (List.length b)).
  - rewrite length_app. lia.
  - rewrite Hpre, firstn_all by lia. rewrite (block_depth _ Hb). lia.
  - intros k Hk. rewrite Hpre by lia.
    pose proof (block_prefix_depth _ k Hb ltac:(lia)). lia.
Qed.


Lemma depth_step (c : ascii) :
  (c = lbrace /\ depth [c] = 1)
  \/ (c = rbrace /\ depth [c] = -1)
  \/ (c <> lbrace /\ c <> rbrace /\ depth [c] = 0).
Proof.
  destruct (Ascii.eqb_spec c lbrace) as [->|Hl]; [left; auto|].
  destruct (Ascii.eqb_spec c rbrace) as [->|Hr]; [right; left; auto|].
  right; right. auto using depth_other.
Qed.

(** From a depth of at least one, a text that brings the counter to zero
    or below splits at the closing brace that first brings it to zero. *)
Lemma first_return (s : str) :
  forall d, 1 <= d -> d + depth s <= 0 ->
  exists u t, s = u ++ rbrace :: t
              /\ d + depth u = 1
              /\ (forall k, 1 <= d + depth (firstn k u)).
Proof.
  induction s as [|c s IH]; intros d Hd Hs.
  - cbn in Hs. lia.
  - rewrite depth_cons in Hs.
    destruct (depth_step c) as [[-> Hc]|[[-> Hc]|(Hl & Hr & Hc)]].
    + destruct (IH (d + 1)) as (u & t & -> & Hu & Hpre); [lia|lia|].
      exists (lbrace :: u), t. split; [reflexivity|].
      split; [rewrite depth_cons; lia|].
      intros [|k]; [cbn; lia|]. rewrite depth_firstn_S.
      specialize (Hpre k). lia.
    + destruct (Z.eq_dec d 1) as [->|Hd1].
      * exists [], s. split; [reflexivity|]. split; [reflexivity|].
        intros k. rewrite firstn_nil. cbn. lia.
      * destruct (IH (d - 1)) as (u & t & -> & Hu & Hpre); [lia|lia|].
        exists (rbrace :: u), t. split; [reflexivity|].
        split; [rewrite depth_cons; lia|].
        intros [|k]; [cbn; lia|]. rewrite depth_firstn_S.
        specialize (Hpre k). lia.
    + destruct (IH d) as (u & t & -> & Hu & Hpre); [lia|lia|].
      exists (c :: u), t. split; [reflexivity|].
      split; [rewrite depth_cons; lia|].
      intros [|k]; [cbn; lia|]. rewrite depth_firstn_S.
      specialize (Hpre k). lia.
Qed.

Lemma balanced_of_depth (n : nat) :
  forall s, (List.length s <= n)%nat ->
            depth s = 0 -> (forall k, 0 <= depth (firstn k s)) ->
            balanced s.
Proof.
  induction n as [|n IH]; intros s Hn Hs Hpre.
  - destruct s; [constructor|cbn in Hn; lia].
  - destruct s as [|c s]; [constructor|].
    cbn [List.length] in Hn.
    rewrite depth_cons in Hs.
    destruct (depth_step c) as [[-> Hc]|[[-> Hc]|(Hl & Hr & Hc)]].
    + destruct (first_return s 1) as (u & t & -> & Hu & Hupre); [lia|lia|].
      rewrite length_app in Hn. cbn [List.length] in Hn.
      rewrite depth_app, (depth_cons rbrace t), depth_rbrace in Hs.
      apply balanced_nest; apply IH; try lia.
      * intros k. specialize (Hupre k). lia.
      * intros k.
        specialize (Hpre (S (List.length u + S k))).
        rewrite depth_firstn_S, firstn_app, firstn_all2, depth_app in Hpre
          by lia.
        replace (List.length u + S k - List.length u)%nat with (S k) in Hpre
          by lia.
        rewrite depth_firstn_S, depth_rbrace in Hpre. lia.
    + specialize (Hpre 1%nat). rewrite depth_firstn_S, depth_rbrace in Hpre.
      cbn [firstn depth] in Hpre. lia.
    + apply balanced_char; auto. apply IH; try lia.
      intros k. specialize (Hpre (S k)). rewrite depth_firstn_S in Hpre. lia.
Qed.

(** The blocks are the texts that the brace counter takes for one block:
    they start with an opening brace, and the depth is zero at their end
    and at least one before. *)
Lemma block_iff_depth (b : str) :
  block b <->
  (exists s, b = lbrace :: s)
  /\ depth b = 0
  /\ (forall k, (1 <= k < List.length b)%nat -> 1 <= depth (firstn k b)).
Proof.
  split.
  - intros Hb. split; [apply block_head; exact Hb|].
    split; [apply block_depth; exact Hb|].
    intros k Hk. apply block_prefix_depth; assumption.
  - intros ((s & ->) & Hd & Hpre).
    destruct (first_return s 1) as (u & t & -> & Hu & Hupre); [lia| |].
    { rewrite depth_cons, depth_lbrace in Hd. lia. }
    destruct t as [|c t].
    + exists u. split; [|reflexivity].
      apply (balanced_of_depth (List.length u)); [lia|lia|].
      intros k. specialize (Hupre k). lia.
    + exfalso.
      specialize (Hpre (S (List.length u + 1))).
      cbn [List.length] in Hpre. rewrite length_app in Hpre.
      cbn [List.length] in Hpre.
      rewrite depth_firstn_S, firstn_app, firstn_all2, depth_app in Hpre
        by lia.
      replace (List.length u + 1 - List.length u)%nat with 1%nat in Hpre
        by lia.
      rewrite depth_firstn_S, depth_rbrace, depth_lbrace in Hpre.
      cbn [firstn depth] in Hpre. lia.
Qed.

Lemma parsed_app (e1 e2 : list effect) :
  parsed (e1 ++ e2) = parsed e1 ++ parsed e2.
Proof. apply flat_map_app. Qed.


Section FrameScanner.

Variable process_block : str -> M unit.

Hypothesis process_block_buffer :
  forall b self, _buffer (state_of (process_block b self)) = _buffer self.
Hypothesis process_block_quiet :
  forall b self, parsed (effects_of (process_block b self)) = [].

Lemma receive_loop_stop (fuel : nat) (self : PetDoor) :
  find_end (_buffer self) = Ret None ->
  receive_loop process_block (S fuel) self = (self, [], Ret tt).
Proof.
  intros H. cbn [receive_loop]. unfold bind, read, lift. rewrite H.
  reflexivity.
Qed.

Lemma receive_loop_error (fuel : nat) (self : PetDoor) (e : exn) :
  find_end (_buffer self) = Raise e ->
  receive_loop process_block (S fuel) self = (self, [], Raise e).
Proof.
  intros H. cbn [receive_loop]. unfold bind, read, lift. rewrite H.
  reflexivity.
Qed.

(** One round of the loop: the block is cut off the buffer, logged and
    processed; the loop goes on when the processing returns and ends with
    its exception otherwise. *)
Lemma receive_loop_next (fuel n : nat) (self : PetDoor) :
  find_end (_buffer self) = Ret (Some (S n)) ->
  let blk := firstn (S n) (_buffer self) in
  let self1 := set__buffer (skipn (S n) (_buffer self)) self in
  let r1 := process_block blk self1 in
  let r2 := receive_loop process_block fuel (state_of r1) in
  receive_loop process_block (S fuel) self =
    match outcome_of r1 with
    | Ret _ =>
        (state_of r2,
         Log DEBUG "Parsing: {block}" [blk] :: effects_of r1 ++ effects_of r2,
         outcome_of r2)
    | Raise e =>
        (state_of r1,
         Log DEBUG "Parsing: {block}" [blk] :: effects_of r1,
         Raise e)
    end.
Proof.
  intros H blk self1 r1 r2. cbn [receive_loop].
  unfold bind at 1. unfold read at 1. unfold bind at 1. rewrite H.
  unfold lift, ret at 1. cbv iota beta.
  unfold bind at 1. unfold assign at 1. unfold bind at 1.
  unfold perform at 1. unfold bind at 1.
  fold blk. fold self1. fold r1.
  subst r2. unfold state_of, effects_of, outcome_of in *.
  destruct r1 as [[s1 e1] [[]|x]]; cbn.
  - destruct (receive_loop process_block fuel s1) as [[s2 e2] o2]. cbn.
    reflexivity.
  - reflexivity.
Qed.

Lemma find_end_bound (s : str) (n : nat) :
  find_end s = Ret (Some n) -> s <> [].
Proof.
  destruct s; [discriminate|]. intros _. discriminate.
Qed.

(** The loop never uses up one round more than the length of the buffer:
    any two such amounts of fuel give the same result. *)
Lemma receive_loop_fuel (fuel1 : nat) :
  forall (fuel2 : nat) (self : PetDoor),
    (List.length (_buffer self) < fuel1)%nat ->
    (List.length (_buffer self) < fuel2)%nat ->
    receive_loop process_block fuel1 self
    = receive_loop process_block fuel2 self.
Proof.
  induction fuel1 as [|fuel1 IH]; intros fuel2 self H1 H2; [lia|].
  destruct fuel2 as [|fuel2]; [lia|].
  destruct (find_end (_buffer self)) as [[[|n]|]|e] eqn:E.
  - cbn [receive_loop]. unfold bind, read, lift. rewrite E. reflexivity.
  - rewrite !(receive_loop_next _ n self E). cbv zeta.
    set (self1 := set__buffer (skipn (S n) (_buffer self)) self).
    set (r1 := process_block (firstn (S n) (_buffer self)) self1).
    assert (Hlen : (List.length (_buffer (state_of r1))
                    < List.length (_buffer self))%nat).
    { subst r1. rewrite process_block_buffer. subst self1. cbn [_buffer].
      apply find_end_bound in E.
      destruct (_buffer self) as [|c s]; [congruence|].
      unfold set__buffer. cbn [_buffer].
      rewrite length_skipn. cbn [List.length]. lia. }
    rewrite (IH fuel2 (state_of r1)) by lia. reflexivity.
  - rewrite !receive_loop_stop by exact E. reflexivity.
  - rewrite !receive_loop_error with (e := e) by exact E. reflexivity.
Qed.


Lemma data_received_ascii (rawdata : list byte) (self : PetDoor) :
  forallb is_ascii rawdata = true ->
  let data := map ascii_of_byte rawdata in
  let self1 := set__buffer (_buffer self ++ data) self in
  let r := receive_loop process_block
             (S (List.length (_buffer self ++ data))) self1 in
  data_received process_block rawdata self =
    (state_of r,
     [Log DEBUG "----------------------------------------" [];
      Log DEBUG "RX < {0}" [data]] ++ effects_of r,
     outcome_of r).
Proof.
  intros H data self1 r. unfold data_received, bytes_ne_str, when,
    decode_ascii. rewrite H. fold data.
  unfold bind, perform, assign, read. fold self1.
  change (_buffer self1) with (_buffer self ++ data). fold r.
  unfold state_of, effects_of, outcome_of.
  destruct r as [[s e] o]. reflexivity.
Qed.



End FrameScanner.



(** The loop ends with the exception that escapes the processing of a
    block: the blocks behind it stay in the buffer. *)
Example receive_loop_stops_on_exception :
  let r := feed (fun _ => raise (KeyError "success"))
             [list_byte_of_string "{}{}"] (init default_config) in
  outcome_of r = Raise (KeyError "success")
  /\ parsed (effects_of r) = [list_ascii_of_string "{}"]
  /\ _buffer (state_of r) = list_ascii_of_string "{}".
Proof. vm_compute. auto. Qed.

(** ** Evaluating methods *)

Ltac unfold_monad :=
  cbv [bind ret raise read assign perform when lift getitem subscript
       settings_setitem cancel_if_set state_of effects_of outcome_of].

Lemma py_eq_str_r (v : json) (s : string) :
  py_eq v (JStr s) = true <-> v = JStr s.
Proof.
  destruct v; cbn; split; try discriminate; intros H.
  - apply String.eqb_eq in H. congruence.
  - injection H as ->. apply String.eqb_refl.
Qed.

Lemma bind_ret_l {A B : Type} (a : A) (f : A -> M B) (self : PetDoor) :
  bind (ret a) f self = f a self.
Proof.
  unfold bind, ret. destruct (f a self) as [[s e] r]. reflexivity.
Qed.

(** ** The [is_on] view *)

(** C10.  While the door status is unknown ([None]), [is_on] is [True]:
    [None] is neither ["DOOR_IDLE"] nor ["DOOR_CLOSED"].  In particular an
    instance just created reads as on. *)
Theorem is_on_unknown_status :
  (forall cfg, status (init cfg) = JNull /\ is_on (init cfg) = true)
  /\ (forall self, status self = JNull -> is_on self = true).
Proof.
  split.
  - intros cfg. split; reflexivity.
  - intros self H. unfold is_on. rewrite H. reflexivity.
Qed.

Lemma is_on_unknown_status_witness :
  is_on (set__buffer (list_ascii_of_string "{") (init default_config)) = true.
Proof.
  apply (proj2 is_on_unknown_status). reflexivity.
Defined.

(** ** [disconnect] *)

(** C3.  On every instance [disconnect] raises [NameError]: it cancels the
    two tasks and closes the transport, setting the three attributes to
    [None], then fails on [self_.buffer = ''] and leaves the receive buffer
    as it was.  A second call raises again and leaves the instance as the
    first call left it. *)
Theorem disconnect_raises (self : PetDoor) :
  outcome_of (disconnect self) = Raise (NameError "self_")
  /\ _buffer (state_of (disconnect self)) = _buffer self
  /\ _keepalive (state_of (disconnect self)) = None
  /\ _refresh (state_of (disconnect self)) = None
  /\ _transport (state_of (disconnect self)) = None
  /\ state_of (disconnect (state_of (disconnect self)))
       = state_of (disconnect self).
Proof.
  unfold disconnect. unfold_monad.
  destruct self as [cfg mi rm st lc se sd ol tr ka rf bu]; cbn.
  destruct ka, rf, tr; cbn; auto 10.
Qed.

(** A buffer that holds the beginning of a block when the connection is
    torn down still holds it afterwards. *)
Example disconnect_keeps_buffer :
  let self := set__buffer (list_ascii_of_string "{abc")
                (set__transport (Some 0%nat) (init default_config)) in
  disconnect self
  = (set__transport None self,
     [Log DEBUG "Closing connection with server..." []; TransportClose 0%nat],
     Raise (NameError "self_")).
Proof. reflexivity. Qed.

(** ** [process_message] *)

Lemma process_message_not_success (now : datetime) (msg : dict)
      (self : PetDoor) :
  dict_get "success" msg <> Some (JStr "true") ->
  process_message now msg self =
    (match dict_get "msgID" msg with
     | Some v => set_replyMsgId v self
     | None => self
     end,
     match dict_get "success" msg with
     | Some _ => [Log WARNING "Error reported: {}" []]
     | None => []
     end,
     match dict_get "success" msg with
     | Some _ => Ret tt
     | None => Raise (KeyError "success")
     end).
Proof.
  intros H. unfold process_message, dict_mem. unfold_monad.
  destruct (dict_get "msgID" msg) as [id|];
    destruct (dict_get "success" msg) as [v|] eqn:E; cbn; try reflexivity.
  all: destruct (py_eq v (JStr "true")) eqn:Ev;
    [apply py_eq_str_r in Ev; congruence|reflexivity].
Qed.

(** C5.  When the [success] field of an inbound message is not the string
    ["true"], [process_message] leaves [status], [last_change] and
    [settings] unchanged: the instance is as before, but for [replyMsgId]
    when the message has a [msgID] field, and the only effect is the
    warning that reports the error. *)
Theorem error_reply_leaves_state (now : datetime) (msg : dict)
        (self : PetDoor) :
  dict_get "success" msg <> Some (JStr "true") ->
  status (state_of (process_message now msg self)) = status self
  /\ last_change (state_of (process_message now msg self)) = last_change self
  /\ settings (state_of (process_message now msg self)) = settings self
  /\ state_of (process_message now msg self) =
       match dict_get "msgID" msg with
       | Some v => set_replyMsgId v self
       | None => self
       end
  /\ (forall v, dict_get "success" msg = Some v ->
        effects_of (process_message now msg self)
          = [Log WARNING "Error reported: {}" []]
        /\ outcome_of (process_message now msg self) = Ret tt).
Proof.
  intros H. rewrite (process_message_not_success now msg self H).
  unfold state_of, effects_of, outcome_of. cbn [fst snd].
  repeat split.
  1-3: destruct (dict_get "msgID" msg); reflexivity.
  all: match goal with Hv : dict_get "success" _ = Some _ |- _ =>
         rewrite Hv; reflexivity end.
Qed.

Lemma error_reply_leaves_state_witness :
  let msg := [("CMD", JStr "DOOR_STATUS"); ("success", JStr "false");
              ("door_status", JStr "DOOR_CLOSED"); ("msgID", JNum 7)] in
  let self := set_status (JStr "DOOR_RISING") (init default_config) in
  status (state_of (process_message 5 msg self)) = JStr "DOOR_RISING"
  /\ last_change (state_of (process_message 5 msg self)) = None
  /\ settings (state_of (process_message 5 msg self)) = JObj []
  /\ replyMsgId (state_of (process_message 5 msg self)) = JNum 7.
Proof.
  intros msg self.
  destruct (error_reply_leaves_state 5 msg self) as (H1 & H2 & H3 & H4 & _).
  - discriminate.
  - rewrite H1, H2, H3, H4. repeat split.
Defined.

Lemma process_door_status (now : datetime) (msg : dict) (self : PetDoor)
      (c : string) (v : json) :
  dict_get "success" msg = Some (JStr "true") ->
  dict_get "CMD" msg = Some (JStr c) ->
  c = "GET_DOOR_STATUS" \/ c = "DOOR_STATUS" ->
  dict_get "door_status" msg = Some v ->
  outcome_of (process_message now msg self) = Ret tt
  /\ status (state_of (process_message now msg self)) = v
  /\ last_change (state_of (process_message now msg self)) =
       if negb (is_None (status self)) && negb (py_eq (status self) v)
       then Some now
       else last_change self.
Proof.
  intros Hs Hc Hcmd Hv. unfold process_message, dict_mem.
  unfold_monad. rewrite Hs, Hc, Hv.
  destruct (dict_get "msgID" msg) as [id|];
    cbn [py_eq String.eqb Ascii.eqb Bool.eqb].
  all: destruct Hcmd as [-> | ->]; cbn.
  all: destruct (is_None (status self)); cbn;
    [|destruct (py_eq (status self) v); cbn]; auto.
Qed.

(** C2.  Processing a successful door-status event ([CMD] is
    [GET_DOOR_STATUS] or [DOOR_STATUS]) returns, stores the new
    [door_status], and sets [last_change] to the current time exactly when
    the previous status was not [None] and differs from the new one;
    otherwise [last_change] keeps its value.  In particular, from an
    unknown status, the events OPEN, OPEN, CLOSED leave [last_change]
    untouched twice and stamp it once, at the third event. *)
Theorem last_change_stamping :
  (forall now msg self c v,
      dict_get "success" msg = Some (JStr "true") ->
      dict_get "CMD" msg = Some (JStr c) ->
      c = "GET_DOOR_STATUS" \/ c = "DOOR_STATUS" ->
      dict_get "door_status" msg = Some v ->
      outcome_of (process_message now msg self) = Ret tt
      /\ status (state_of (process_message now msg self)) = v
      /\ last_change (state_of (process_message now msg self)) =
           if negb (is_None (status self)) && negb (py_eq (status self) v)
           then Some now
           else last_change self)
  /\ (forall self cmd opened closed t1 t2 t3,
        status self = JNull ->
        cmd = "GET_DOOR_STATUS" \/ cmd = "DOOR_STATUS" ->
        opened <> closed ->
        let s1 := state_of (process_message t1
                    (door_status_event cmd (JStr opened)) self) in
        let s2 := state_of (process_message t2
                    (door_status_event cmd (JStr opened)) s1) in
        let s3 := state_of (process_message t3
                    (door_status_event cmd (JStr closed)) s2) in
        last_change s1 = last_change self
        /\ last_change s2 = last_change self
        /\ last_change s3 = Some t3).
Proof.
  split; [exact process_door_status|].
  intros self cmd opened closed t1 t2 t3 Hnull Hcmd Hne s1 s2 s3.
  assert (Hev : forall now v s,
             status (state_of (process_message now
                       (door_status_event cmd v) s)) = v
             /\ last_change (state_of (process_message now
                               (door_status_event cmd v) s)) =
                  if negb (is_None (status s)) && negb (py_eq (status s) v)
                  then Some now
                  else last_change s).
  { intros now v s.
    apply (process_door_status now (door_status_event cmd v) s cmd v);
      auto. }
  destruct (Hev t1 (JStr opened) self) as [St1 L1]. fold s1 in St1, L1.
  destruct (Hev t2 (JStr opened) s1) as [St2 L2]. fold s2 in St2, L2.
  destruct (Hev t3 (JStr closed) s2) as [_ L3]. fold s3 in L3.
  rewrite Hnull in L1. cbn in L1.
  rewrite St1 in L2. cbn in L2. rewrite String.eqb_refl in L2. cbn in L2.
  rewrite St2 in L3. cbn in L3.
  destruct (String.eqb_spec opened closed) as [E|_]; [contradiction|].
  cbn in L3. rewrite L2, L1. auto.
Qed.

Lemma last_change_stamping_witness :
  let msg := [("CMD", JStr "DOOR_STATUS"); ("success", JStr "true");
              ("door_status", JStr "DOOR_CLOSED"); ("msgID", JNum 7)] in
  let fresh := init default_config in
  let open := set_status (JStr "DOOR_HOLDING") (init default_config) in
  last_change (state_of (process_message 9 msg fresh)) = None
  /\ status (state_of (process_message 9 msg fresh)) = JStr "DOOR_CLOSED"
  /\ is_on (state_of (process_message 9 msg fresh)) = false
  /\ last_change (state_of (process_message 9 msg open)) = Some 9.
Proof.
  intros msg fresh open.
  destruct (proj1 last_change_stamping 9 msg fresh "DOOR_STATUS"
              (JStr "DOOR_CLOSED")) as (_ & S1 & L1);
    [reflexivity|reflexivity|right; reflexivity|reflexivity|].
  destruct (proj1 last_change_stamping 9 msg open "DOOR_STATUS"
              (JStr "DOOR_CLOSED")) as (_ & _ & L2);
    [reflexivity|reflexivity|right; reflexivity|reflexivity|].
  unfold is_on. rewrite S1, L1, L2. repeat split.
Defined.

(** ** Relations kept by every step of a method *)

Section Invariants.

(** A relation that holds of no step at all, and of two steps in a row
    when it holds of each. *)
Variable R : PetDoor -> PetDoor -> list effect -> Prop.
Hypothesis R_refl : forall self, R self self [].
Hypothesis R_trans : forall a b c e1 e2,
    R a b e1 -> R b c e2 -> R a c (e1 ++ e2).

Lemma sat_ret {A : Type} (a : A) : sat R (ret a).
Proof. intros self. apply R_refl. Qed.

Lemma sat_raise {A : Type} (e : exn) : sat R (@raise A e).
Proof. intros self. apply R_refl. Qed.

Lemma sat_read {A : Type} (f : PetDoor -> A) : sat R (read f).
Proof. intros self. apply R_refl. Qed.

Lemma sat_lift {A : Type} (r : outcome A) : sat R (lift r).
Proof. destruct r; intros self; apply R_refl. Qed.

Lemma sat_assign (f : PetDoor -> PetDoor) :
  (forall self, R self (f self) []) -> sat R (assign f).
Proof. intros H self. apply H. Qed.

Lemma sat_perform (e : effect) :
  (forall self, R self self [e]) -> sat R (perform e).
Proof. intros H self. apply H. Qed.

Lemma sat_bind {A B : Type} (m : M A) (f : A -> M B) :
  sat R m -> (forall a, sat R (f a)) -> sat R (bind m f).
Proof.
  intros Hm Hf self. specialize (Hm self).
  unfold bind, state_of, effects_of in *.
  destruct (m self) as [[self1 e1] [a|e]]; cbn in *.
  - specialize (Hf a self1). unfold state_of, effects_of in Hf.
    destruct (f a self1) as [[self2 e2] r]; cbn in *.
    eapply R_trans; eassumption.
  - exact Hm.
Qed.

Lemma sat_bind_getitem {B : Type} (d : dict) (k : string)
      (f : json -> M B) :
  (forall v, dict_get k d = Some v -> sat R (f v)) ->
  sat R (bind (getitem d k) f).
Proof.
  intros Hf self. unfold getitem.
  destruct (dict_get k d) as [v|].
  - specialize (Hf v eq_refl self).
    unfold bind, ret, state_of, effects_of in *.
    destruct (f v self) as [[self2 e2] r]; cbn in *. exact Hf.
  - apply R_refl.
Qed.

End Invariants.

(** Unfolds the methods down to [send_data] and [settings_setitem]. *)
Ltac sat_unfold :=
  cbv [perform_call start stop connection_made disconnect send_message
       process_message async_update cmd_open cmd_open_and_hold cmd_close
       config_disable_inside config_enable_inside config_toggle_inside
       config_disable_outside config_enable_outside config_toggle_outside
       config_disable_auto config_enable_auto config_toggle_auto
       config_power_on config_power_off config_power_toggle when
       cancel_if_set subscript].

(** One step through a method: [leaf] closes the calls it knows, [fin]
    the attribute updates and the effects. *)
Ltac sat_step Hrefl Htrans leaf fin :=
  first
    [ solve [leaf]
    | lazymatch goal with
      | |- sat _ (bind (getitem _ _) _) =>
          apply (@sat_bind_getitem _ Hrefl); intros ? ?
      | |- sat _ (bind _ _) => apply (@sat_bind _ Htrans); [|intro]
      | |- sat _ (ret _) => apply (@sat_ret _ Hrefl)
      | |- sat _ (raise _) => apply (@sat_raise _ Hrefl)
      | |- sat _ (read _) => apply (@sat_read _ Hrefl)
      | |- sat _ (lift _) => apply (@sat_lift _ Hrefl)
      | |- sat _ (getitem _ _) => unfold getitem
      | |- sat _ (when _ _) => unfold when
      | |- sat _ (send_data _ _) => unfold send_data
      | |- sat _ schedule_reconnect => unfold schedule_reconnect
      | |- sat _ connection_lost => unfold connection_lost
      | |- sat _ handle_connect_failure => unfold handle_connect_failure
      | |- sat _ (assign _) => apply sat_assign; intro; solve [fin]
      | |- sat _ (perform _) => apply sat_perform; intro; solve [fin]
      | |- sat _ (if ?b then _ else _) => destruct b eqn:?
      | |- sat _ (match ?x with _ => _ end) => destruct x eqn:?
      end ].

Ltac sat_auto Hrefl Htrans leaf fin :=
  sat_unfold; repeat sat_step Hrefl Htrans leaf fin.

(** ** Message ids *)

Lemma msgId_grows_refl (self : PetDoor) : msgId_grows self self [].
Proof. unfold msgId_grows. lia. Qed.

Lemma msgId_grows_trans (a b c : PetDoor) (e1 e2 : list effect) :
  msgId_grows a b e1 -> msgId_grows b c e2 -> msgId_grows a c (e1 ++ e2).
Proof. unfold msgId_grows. lia. Qed.

Lemma settings_setitem_msgId (k : string) (v : json) :
  sat msgId_grows (settings_setitem k v).
Proof.
  intros self. unfold settings_setitem. unfold_monad. unfold msgId_grows.
  destruct (settings self); cbn; lia.
Qed.

Lemma send_data_returns (wr : write_result) (data : dict) (self : PetDoor) :
  outcome_of (send_data wr data self) = Ret tt
  /\ msgId (state_of (send_data wr data self)) = msgId self
  /\ replyMsgId (state_of (send_data wr data self)) = replyMsgId self.
Proof.
  unfold send_data, schedule_reconnect. unfold_monad.
  destruct (_transport self); [|auto].
  destruct (_keepalive self), wr; cbn; auto;
    destruct (_shutdown self); cbn; auto.
Qed.

Lemma send_data_msgId_grows (wr : write_result) (data : dict) :
  sat msgId_grows (send_data wr data).
Proof.
  intros self. destruct (send_data_returns wr data self) as (_ & H & _).
  unfold msgId_grows. lia.
Qed.

Lemma perform_call_msgId_grows (c : call) : sat msgId_grows (perform_call c).
Proof.
  destruct c;
    sat_auto msgId_grows_refl msgId_grows_trans
      ltac:(first [ apply settings_setitem_msgId
                  | apply send_data_msgId_grows ])
      ltac:(unfold msgId_grows; cbn; lia).
Qed.

Lemma send_message_returns (wr : write_result) (type arg : string)
      (self : PetDoor) :
  outcome_of (send_message wr type arg self) = Ret (msgId self)
  /\ msgId (state_of (send_message wr type arg self)) = msgId self + 1
  /\ replyMsgId (state_of (send_message wr type arg self))
       = replyMsgId self.
Proof.
  unfold send_message.
  pose proof (send_data_returns wr (outbound type arg (msgId self))
                (set_msgId (msgId self + 1) self)) as (Hout & Hid & Hre).
  unfold bind, read, assign, ret, state_of, outcome_of in *.
  cbn [fst snd] in *.
  destruct (send_data wr (outbound type arg (msgId self))
              (set_msgId (msgId self + 1) self)) as [[s e] o].
  cbn [fst snd] in *. subst o. cbn. auto.
Qed.

Lemma then_None_outcome {A : Type} (m : M A) (self : PetDoor) (id : Z) :
  outcome_of ((m ;; ret (@None Z)) self) <> Ret (Some id).
Proof.
  unfold bind, ret, outcome_of.
  destruct (m self) as [[s e] [a|x]]; cbn; discriminate.
Qed.

Lemma perform_call_id (c : call) (self : PetDoor) (id : Z) :
  outcome_of (perform_call c self) = Ret (Some id) ->
  id = msgId self /\ msgId self < msgId (state_of (perform_call c self)).
Proof.
  destruct c; cbn [perform_call]; intros H;
    try (exfalso; revert H; apply then_None_outcome).
  pose proof (send_message_returns wr type arg self) as (Hout & Hid & _).
  unfold bind, ret, state_of, outcome_of in *.
  destruct (send_message wr type arg self) as [[s e] o]. cbn [fst snd] in *.
  subst o. cbn in *. injection H as <-. lia.
Qed.

Lemma run_ids_bounds (cs : list call) :
  forall self,
    StronglySorted Z.lt (run_ids (run cs self))
    /\ Forall (fun id => msgId self <= id) (run_ids (run cs self)).
Proof.
  induction cs as [|c cs IH]; intros self.
  - cbn. split; constructor.
  - cbn [run].
    pose proof (perform_call_msgId_grows c self) as Hgrow.
    pose proof (perform_call_id c self) as Hid.
    unfold msgId_grows, state_of, effects_of, outcome_of, run_ids in *.
    destruct (perform_call c self) as [[s1 e1] r]. cbn [fst snd] in *.
    destruct (IH s1) as [Hsort Hall].
    destruct (run cs s1) as [[s2 e2] ids]. cbn [fst snd] in *.
    assert (Hall' : Forall (fun id => msgId self <= id) ids).
    { eapply Forall_impl; [|exact Hall]. cbn. intros; lia. }
    destruct r as [[id|]|x]; auto.
    destruct (Hid id eq_refl) as [-> Hlt].
    split; constructor; auto; try lia.
    eapply Forall_impl; [|exact Hall]. cbn. intros; lia.
Qed.

(** C8.  [send_message] always returns, and what it returns is the id it
    put in the outbound message, the value of the counter at the call; it
    leaves the counter one higher and does not touch [replyMsgId].  Over
    any history of calls on an instance, the ids returned by the calls of
    [send_message] are strictly increasing, hence pairwise distinct, and
    none is below the counter the history started from. *)
Theorem send_message_ids :
  (forall wr type arg self,
      outcome_of (send_message wr type arg self) = Ret (msgId self)
      /\ msgId (state_of (send_message wr type arg self)) = msgId self + 1
      /\ replyMsgId (state_of (send_message wr type arg self))
           = replyMsgId self)
  /\ (forall wr type arg self t,
        _transport self = Some t ->
        written (effects_of (send_message WriteOk type arg self))
          = [outbound type arg (msgId self)]
        /\ written (effects_of (send_message wr type arg
                                  (set__transport None self))) = [])
  /\ (forall cs self,
        StronglySorted Z.lt (run_ids (run cs self))
        /\ NoDup (run_ids (run cs self))
        /\ Forall (fun id => msgId self <= id) (run_ids (run cs self))).
Proof.
  split; [|split].
  - apply send_message_returns.
  - intros wr type arg self t Ht.
    destruct self as [cfg mi rm st lc se sd ol tr ka rf bu].
    cbn [_transport] in Ht. subst tr.
    unfold send_message, send_data. unfold_monad.
    destruct ka; cbn -[outbound]; auto.
  - intros cs self. destruct (run_ids_bounds cs self) as [Hs Hb].
    repeat split; auto.
    clear Hb. induction Hs as [|id ids _ IH Hall]; constructor; auto.
    intros Hin. rewrite Forall_forall in Hall. specialize (Hall id Hin). lia.
Qed.

Lemma send_message_ids_witness :
  let self := set__transport (Some 0%nat) (init default_config) in
  written (effects_of (send_message WriteOk CONFIG "GET_SETTINGS" self))
    = [[("config", JStr "GET_SETTINGS"); ("msgId", JNum 1);
        ("dir", JStr "p2d")]].
Proof.
  intros self.
  apply (proj1 (proj2 send_message_ids) WriteOk CONFIG "GET_SETTINGS" self
           0%nat).
  reflexivity.
Defined.

(** ** Reconnection *)

Lemma reconnects_app (e1 e2 : list effect) :
  reconnects (e1 ++ e2) = reconnects e1 ++ reconnects e2.
Proof. apply flat_map_app. Qed.

Lemma stays_down_refl (self : PetDoor) : stays_down self self [].
Proof. unfold stays_down. auto. Qed.

Lemma stays_down_trans (a b c : PetDoor) (e1 e2 : list effect) :
  stays_down a b e1 -> stays_down b c e2 -> stays_down a c (e1 ++ e2).
Proof.
  unfold stays_down. intros H1 H2 Ha.
  destruct (H1 Ha) as [Hb E1]. destruct (H2 Hb) as [Hc E2].
  rewrite reconnects_app, E1, E2. auto.
Qed.

Lemma connection_lost_effects (self : PetDoor) :
  connection_lost self =
    (self,
     if _shutdown self then []
     else [Log ERROR "The server closed the connection. Reconnecting..." [];
           EnsureFuture (Reconnect (reconnect_delay self))],
     Ret tt).
Proof.
  unfold connection_lost, schedule_reconnect. unfold_monad.
  destruct (_shutdown self); reflexivity.
Qed.

Lemma handle_connect_failure_effects (self : PetDoor) :
  handle_connect_failure self =
    (self,
     if _shutdown self then []
     else [Log ERROR "Unable to connect to power pet door. Reconnecting..." [];
           EnsureFuture (Reconnect (reconnect_delay self))],
     Ret tt).
Proof.
  unfold handle_connect_failure, schedule_reconnect. unfold_monad.
  destruct (_shutdown self); reflexivity.
Qed.

Lemma send_data_reconnects (wr : write_result) (data : dict)
      (self : PetDoor) :
  reconnects (effects_of (send_data wr data self)) =
    match _transport self, wr with
    | Some _, WriteRuntimeError =>
        if _shutdown self then [] else [reconnect_delay self]
    | _, _ => []
    end
  /\ _shutdown (state_of (send_data wr data self)) = _shutdown self.
Proof.
  unfold send_data, schedule_reconnect. unfold_monad.
  destruct (_transport self); [|auto].
  destruct (_keepalive self), wr; cbn; auto;
    destruct (_shutdown self) eqn:E; cbn; auto.
Qed.

Lemma connection_lost_stays_down : sat stays_down connection_lost.
Proof.
  intros self Hd. rewrite connection_lost_effects.
  unfold state_of, effects_of. cbn. rewrite Hd. auto.
Qed.

Lemma handle_connect_failure_stays_down :
  sat stays_down handle_connect_failure.
Proof.
  intros self Hd. rewrite handle_connect_failure_effects.
  unfold state_of, effects_of. cbn. rewrite Hd. auto.
Qed.

Lemma send_data_stays_down (wr : write_result) (data : dict) :
  sat stays_down (send_data wr data).
Proof.
  intros self Hd. destruct (send_data_reconnects wr data self) as [E1 E2].
  rewrite E1, E2, Hd. split; [reflexivity|].
  destruct (_transport self), wr; reflexivity.
Qed.

Lemma settings_setitem_stays_down (k : string) (v : json) :
  sat stays_down (settings_setitem k v).
Proof.
  intros self Hd. unfold settings_setitem. unfold_monad.
  destruct (settings self); cbn; auto.
Qed.

Lemma perform_call_stays_down (c : call) :
  is_start c = false -> sat stays_down (perform_call c).
Proof.
  destruct c; intros Hc; try discriminate Hc;
    sat_auto stays_down_refl stays_down_trans
      ltac:(first [ apply connection_lost_stays_down
                  | apply handle_connect_failure_stays_down
                  | apply send_data_stays_down
                  | apply settings_setitem_stays_down ])
      ltac:(unfold stays_down; cbn; auto).
Qed.

Lemma run_stays_down (cs : list call) :
  forall self,
    forallb (fun c => negb (is_start c)) cs = true ->
    _shutdown self = true ->
    _shutdown (run_state (run cs self)) = true
    /\ reconnects (run_effects (run cs self)) = [].
Proof.
  induction cs as [|c cs IH]; intros self Hcs Hd.
  - cbn. auto.
  - cbn [forallb] in Hcs. apply andb_true_iff in Hcs as [Hc Hcs].
    apply negb_true_iff in Hc.
    pose proof (perform_call_stays_down c Hc self Hd) as [Hd1 E1].
    cbn [run]. unfold state_of, effects_of, run_state, run_effects in *.
    destruct (perform_call c self) as [[s1 e1] r]. cbn [fst snd] in *.
    destruct (IH s1 Hcs Hd1) as [Hd2 E2].
    destruct (run cs s1) as [[s2 e2] ids]. cbn [fst snd] in *.
    rewrite reconnects_app, E1, E2. auto.
Qed.

(** C9.  [connection_lost] and [handle_connect_failure] schedule one
    reconnect, with the configured reconnect delay, when [_shutdown] is
    false, and none when it is true; [send_data] schedules one under the
    same condition when the write fails, and none otherwise.  Over any
    history of calls that does not call [start], an instance that is shut
    down stays shut down and no reconnect is scheduled. *)
Theorem reconnect_unless_shutdown :
  (forall self,
      reconnects (effects_of (connection_lost self)) =
        if _shutdown self then [] else [reconnect_delay self])
  /\ (forall self,
        reconnects (effects_of (handle_connect_failure self)) =
          if _shutdown self then [] else [reconnect_delay self])
  /\ (forall wr data self,
        reconnects (effects_of (send_data wr data self)) =
          match _transport self, wr with
          | Some _, WriteRuntimeError =>
              if _shutdown self then [] else [reconnect_delay self]
          | _, _ => []
          end)
  /\ (forall cs self,
        forallb (fun c => negb (is_start c)) cs = true ->
        _shutdown self = true ->
        _shutdown (run_state (run cs self)) = true
        /\ reconnects (run_effects (run cs self)) = []).
Proof.
  split; [|split; [|split]].
  - intros self. rewrite connection_lost_effects. unfold effects_of. cbn.
    destruct (_shutdown self); reflexivity.
  - intros self. rewrite handle_connect_failure_effects.
    unfold effects_of. cbn. destruct (_shutdown self); reflexivity.
  - intros wr data self. apply send_data_reconnects.
  - apply run_stays_down.
Qed.

Lemma reconnect_unless_shutdown_witness :
  let cs := [CallStop; CallConnectionLost; CallHandleConnectFailure;
             CallSendMessage WriteRuntimeError PING "1700000000000";
             CallDisconnect; CallConnectionMade WriteRuntimeError 1%nat;
             CallConnectionLost] in
  let self := set__shutdown true
                (set__transport (Some 0%nat) (init default_config)) in
  _shutdown (run_state (run cs self)) = true
  /\ reconnects (run_effects (run cs self)) = [].
Proof.
  intros cs self.
  apply (proj2 (proj2 (proj2 reconnect_unless_shutdown)) cs self);
    reflexivity.
Defined.

(** ** The settings mapping *)

Lemma dict_mem_set {V : Type} (k k' : string) (v : V)
      (d : list (string * V)) :
  dict_mem k d = true -> dict_mem k (dict_set k' v d) = true.
Proof.
  unfold dict_mem. induction d as [|[k0 v0] d IH]; cbn; [discriminate|].
  destruct (String.eqb_spec k' k0) as [->|Hne]; cbn.
  - destruct (k =? k0)%string; auto.
  - destruct (k =? k0)%string; auto.
Qed.

Lemma keeps_keys_refl (self : PetDoor) : keeps_keys self self [].
Proof. unfold keeps_keys. auto. Qed.

Lemma keeps_keys_trans (a b c : PetDoor) (e1 e2 : list effect) :
  keeps_keys a b e1 -> keeps_keys b c e2 -> keeps_keys a c (e1 ++ e2).
Proof. unfold keeps_keys. auto. Qed.

Lemma settings_setitem_keeps_keys (k : string) (v : json) :
  sat keeps_keys (settings_setitem k v).
Proof.
  intros self k0. unfold settings_setitem. unfold_monad.
  destruct (settings self) eqn:E; cbn; rewrite ?E; auto.
  cbn. apply dict_mem_set.
Qed.

Lemma process_message_keeps_keys (now : datetime) (msg : dict) :
  ~ is_settings_reply msg ->
  sat keeps_keys (process_message now msg).
Proof.
  intros Hn.
  destruct (dict_get "success" msg) as [v|] eqn:Es.
  2:{ intros self. rewrite process_message_not_success by congruence.
      unfold state_of. cbn. destruct (dict_get "msgID" msg); intros k; auto. }
  destruct (py_eq v (JStr "true")) eqn:Ev.
  2:{ intros self. rewrite process_message_not_success.
      - unfold state_of. cbn. destruct (dict_get "msgID" msg); intros k; auto.
      - rewrite Es. intros [= ->]. cbn in Ev. discriminate. }
  apply py_eq_str_r in Ev. subst v.
  unfold process_message. cbv [when cancel_if_set].
  repeat sat_step keeps_keys_refl keeps_keys_trans
    ltac:(first [ apply settings_setitem_keeps_keys
                | match goal with
                  | H1 : py_eq ?c (JStr "GET_SETTINGS") = true,
                    H2 : dict_get "CMD" _ = Some ?c,
                    H3 : dict_get "settings" _ = Some _ |- _ =>
                      exfalso; apply Hn; apply py_eq_str_r in H1;
                      repeat split; congruence
                  end ])
    ltac:(unfold keeps_keys; cbn; auto).
Qed.

Lemma process_settings_reply (now : datetime) (msg : dict) (self : PetDoor)
      (v : json) :
  is_settings_reply msg ->
  dict_get "settings" msg = Some v ->
  settings (state_of (process_message now msg self)) = v
  /\ outcome_of (process_message now msg self) = Ret tt.
Proof.
  intros (Hs & Hc & _) Hv. unfold process_message, dict_mem.
  unfold_monad. rewrite Hs, Hc, Hv.
  destruct (dict_get "msgID" msg) as [id|]; cbn;
    destruct (_refresh self); cbn; auto.
Qed.

(** C6 as stated fails: a successful [GET_SETTINGS] reply whose settings
    object is empty removes the key ["inside"] from the mapping. *)
Lemma settings_keys_dropped :
  ~ (forall now msg self k,
        has_key k (settings self) = true ->
        has_key k (settings (state_of (process_message now msg self)))
          = true).
Proof.
  intros H.
  specialize (H 0
                [("CMD", JStr "GET_SETTINGS"); ("success", JStr "true");
                 ("settings", JObj [])]
                (set_settings (JObj [("inside", JStr "true")])
                   (init default_config))
                "inside" eq_refl).
  vm_compute in H. discriminate.
Qed.

(** C6, amended.  Across the processing of any sequence of inbound events
    none of which is a successful [GET_SETTINGS] reply with a settings
    field, every key present in the settings mapping before is still
    present afterwards, whether the events raise or not; such a reply
    replaces the mapping by its settings object. *)
Theorem settings_keys_kept :
  (forall msgs self k,
      Forall (fun m => ~ is_settings_reply (snd m)) msgs ->
      has_key k (settings self) = true ->
      has_key k (settings (process_all msgs self)) = true)
  /\ (forall now msg self v,
        is_settings_reply msg ->
        dict_get "settings" msg = Some v ->
        settings (state_of (process_message now msg self)) = v).
Proof.
  split.
  - induction msgs as [|[now msg] msgs IH]; intros self k Hall Hk;
      [exact Hk|].
    cbn [process_all]. apply Forall_cons_iff in Hall as [Hm Hall].
    apply IH; [exact Hall|].
    apply (process_message_keeps_keys now msg Hm self k Hk).
  - intros now msg self v Hr Hv.
    apply (process_settings_reply now msg self v Hr Hv).
Qed.

Lemma settings_keys_kept_witness :
  let msgs := [(1, [("CMD", JStr "GET_SENSORS"); ("success", JStr "true");
                    ("inside", JBool false); ("outside", JBool true)]);
               (2, [("CMD", JStr "POWER_ON"); ("success", JStr "true");
                    ("power_state", JStr "true")]);
               (3, [("CMD", JStr "GET_SETTINGS"); ("success", JStr "true")]);
               (4, [("CMD", JStr "DOOR_STATUS"); ("success", JStr "true")])] in
  let self := set_settings (JObj [("inside", JStr "true")])
                (init default_config) in
  has_key "inside" (settings (process_all msgs self)) = true.
Proof.
  intros msgs self.
  apply (proj1 settings_keys_kept msgs self "inside"); [|reflexivity].
  repeat constructor; intros (Hs & Hc & Hv); try discriminate.
  apply Hv. reflexivity.
Defined.

(** ** The handler of the class and the receive buffer *)

Lemma leaves_buffer_refl (self : PetDoor) : leaves_buffer self self [].
Proof. unfold leaves_buffer. auto. Qed.

Lemma leaves_buffer_trans (a b c : PetDoor) (e1 e2 : list effect) :
  leaves_buffer a b e1 -> leaves_buffer b c e2 ->
  leaves_buffer a c (e1 ++ e2).
Proof.
  unfold leaves_buffer. intros [B1 E1] [B2 E2].
  rewrite parsed_app, E1, E2. split; [congruence|reflexivity].
Qed.

Lemma settings_setitem_leaves_buffer (k : string) (v : json) :
  sat leaves_buffer (settings_setitem k v).
Proof.
  intros self. unfold settings_setitem. unfold_monad. unfold leaves_buffer.
  destruct (settings self); cbn; auto.
Qed.

(** [process_message] leaves the receive buffer alone and writes no
    parsing record, as the processing of a block should. *)
Lemma process_message_leaves_buffer (now : datetime) (msg : dict) :
  sat leaves_buffer (process_message now msg).
Proof.
  sat_auto leaves_buffer_refl leaves_buffer_trans
    ltac:(apply settings_setitem_leaves_buffer)
    ltac:(unfold leaves_buffer; cbn; auto).
Qed.

(** ** Toggles *)

Lemma config_toggle_inside_known (wr : write_result) (self : PetDoor)
      (d : dict) :
  settings self = JObj d ->
  (dict_get "inside" d = Some (JStr "true") ->
   config_toggle_inside wr self = config_disable_inside wr self)
  /\ (dict_get "inside" d = Some (JStr "false") ->
      config_toggle_inside wr self = config_enable_inside wr self).
Proof.
  intros Hs. split; intros Hk.
  all: unfold config_toggle_inside, when, subscript, getitem.
  all: unfold bind at 1; unfold read at 1; rewrite Hs.
  all: destruct d as [|kv d]; [discriminate Hk|]; cbn [py_truthy].
  all: rewrite Hk; rewrite ?bind_ret_l;
    cbn [py_eq String.eqb Ascii.eqb Bool.eqb].
  all: rewrite ?bind_ret_l; cbn [py_eq String.eqb Ascii.eqb Bool.eqb].
  all: destruct (config_disable_inside wr self) as [[s1 e1] r1];
       destruct (config_enable_inside wr self) as [[s2 e2] r2]; reflexivity.
Qed.

Lemma config_toggle_empty (wr : write_result) (self : PetDoor) :
  settings self = JObj [] ->
  config_toggle_inside wr self = (self, [], Ret tt)
  /\ config_toggle_outside wr self = (self, [], Ret tt)
  /\ config_toggle_auto wr self = (self, [], Ret tt)
  /\ config_power_toggle wr self = (self, [], Ret tt).
Proof.
  intros Hs.
  unfold config_toggle_inside, config_toggle_outside, config_toggle_auto,
    config_power_toggle.
  unfold_monad. rewrite Hs. cbn. auto.
Qed.

(** C4.  When the settings mapping is not empty and lacks the key a toggle
    reads, the toggle raises [KeyError]: it sends nothing and changes
    nothing, but it does not return. *)
Theorem toggle_missing_key_raises (wr : write_result) (self : PetDoor)
        (d : dict) :
  settings self = JObj d ->
  d <> [] ->
  (dict_get "inside" d = None ->
   config_toggle_inside wr self = (self, [], Raise (KeyError "inside")))
  /\ (dict_get "outside" d = None ->
      config_toggle_outside wr self = (self, [], Raise (KeyError "outside")))
  /\ (dict_get "timersEnabled" d = None ->
      config_toggle_auto wr self
        = (self, [], Raise (KeyError "timersEnabled")))
  /\ (dict_get "power_state" d = None ->
      config_power_toggle wr self
        = (self, [], Raise (KeyError "power_state"))).
Proof.
  intros Hs Hd.
  unfold config_toggle_inside, config_toggle_outside, config_toggle_auto,
    config_power_toggle.
  unfold_monad. rewrite Hs.
  destruct d as [|kv d]; [congruence|]. cbn [py_truthy].
  repeat split; intros Hk; rewrite Hk; reflexivity.
Qed.

Lemma toggle_missing_key_raises_witness :
  let self := set_settings (JObj [("outside", JStr "true")])
                (init default_config) in
  config_toggle_inside WriteOk self = (self, [], Raise (KeyError "inside")).
Proof.
  intros self.
  apply (toggle_missing_key_raises WriteOk self [("outside", JStr "true")]);
    [reflexivity|discriminate|reflexivity].
Defined.

(** * Further properties *)

(** ** What [find_end] returns *)

Lemma find_end_loop_inv (s : str) :
  forall (i : nat) (p : Z) (m : nat),
    find_end_loop s i p = Some m ->
    exists n, m = (i + n)%nat
              /\ (1 <= n <= List.length s)%nat
              /\ p + depth (firstn n s) = 0
              /\ (forall k, (1 <= k < n)%nat -> p + depth (firstn k s) <> 0).
Proof.
  induction s as [|c s IH]; intros i p m H; [discriminate|].
  rewrite find_end_loop_cons in H.
  destruct (Z.eqb_spec (p + depth [c]) 0) as [E|E].
  - injection H as <-. exists 1%nat. cbn [List.length].
    repeat split; try lia.
    rewrite depth_firstn_S. cbn [firstn]. change (depth []) with 0. lia.
  - destruct (IH _ _ _ H) as (n & -> & Hn & H0 & Hmin).
    exists (S n). cbn [List.length]. repeat split; try lia.
    + rewrite depth_firstn_S. lia.
    + intros [|k] Hk; [lia|]. rewrite depth_firstn_S.
      destruct k as [|k].
      * cbn [firstn]. change (depth []) with 0. lia.
      * specialize (Hmin (S k) ltac:(lia)). lia.
Qed.

Lemma depth_firstn_step (s : str) :
  forall k, -1 <= depth (firstn (S k) s) - depth (firstn k s) <= 1.
Proof.
  induction s as [|c s IH]; intros k.
  - rewrite !firstn_nil. lia.
  - destruct k as [|k].
    + rewrite depth_firstn_S. cbn [firstn]. change (depth []) with 0.
      destruct (depth_step c) as [[_ E]|[[_ E]|(_ & _ & E)]]; lia.
    + rewrite !depth_firstn_S. specialize (IH k). lia.
Qed.

Lemma depth_stays_nonnegative (s : str) (n : nat) :
  (forall k, (1 <= k < n)%nat -> 1 + depth (firstn k s) <> 0) ->
  forall k, (k < n)%nat -> 0 <= depth (firstn k s).
Proof.
  intros Hne k. induction k as [|k IH]; intros Hk.
  - cbn [firstn]. change (depth []) with 0. lia.
  - specialize (IH ltac:(lia)).
    pose proof (depth_firstn_step s k).
    specialize (Hne (S k) ltac:(lia)). lia.
Qed.

(** What [find_end] cuts off is a brace block. *)
Lemma find_end_some_block (s : str) (n : nat) :
  find_end s = Ret (Some n) ->
  (n <= List.length s)%nat /\ block (firstn n s).
Proof.
  intros H. destruct s as [|c s]; [discriminate|].
  unfold find_end in H.
  destruct (Ascii.eqb_spec c lbrace) as [->|Hc]; [|discriminate].
  cbv [negb] in H. injection H as H.
  change (find_end_loop s 1 1 = Some n) in H.
  destruct (find_end_loop_inv _ _ _ _ H) as (n' & -> & Hn & H0 & Hmin).
  cbn [Nat.add List.length]. split; [lia|].
  apply block_iff_depth.
  split; [rewrite firstn_cons; eauto|].
  split; [rewrite depth_firstn_S, depth_lbrace; lia|].
  intros k Hk. rewrite length_firstn in Hk. cbn [List.length] in Hk.
  rewrite firstn_firstn. replace (Nat.min k (S n')) with k by lia.
  destruct k as [|k]; [lia|].
  rewrite depth_firstn_S, depth_lbrace.
  pose proof (depth_stays_nonnegative s n' Hmin k ltac:(lia)). lia.
Qed.

(** X1.  [find_end] returns [n] exactly when the first [n] characters of the
    buffer are one brace block. *)
Theorem find_end_some_iff_block (s : str) (n : nat) :
  find_end s = Ret (Some n)
  <-> (n <= List.length s)%nat /\ block (firstn n s).
Proof.
  split; [apply find_end_some_block|].
  intros [Hn Hb].
  rewrite <- (firstn_skipn n s) at 1.
  rewrite find_end_block by exact Hb.
  rewrite length_firstn. do 2 f_equal. lia.
Qed.

(** ** What the receive loop does with any input *)

Section ReceiveLoop.

Variable process_block : str -> M unit.

Hypothesis process_block_buffer :
  forall b self, _buffer (state_of (process_block b self)) = _buffer self.
Hypothesis process_block_quiet :
  forall b self, parsed (effects_of (process_block b self)) = [].

Lemma receive_loop_conserves (fuel : nat) :
  forall self,
    List.concat (parsed (effects_of (receive_loop process_block fuel self)))
      ++ _buffer (state_of (receive_loop process_block fuel self))
    = _buffer self
    /\ Forall block
         (parsed (effects_of (receive_loop process_block fuel self))).
Proof.
  induction fuel as [|fuel IH]; intros self.
  - cbn. auto.
  - destruct (find_end (_buffer self)) as [[[|n]|]|e] eqn:E.
    + cbn [receive_loop]. unfold bind, read, lift. rewrite E. cbn. auto.
    + rewrite (receive_loop_next process_block fuel n self E). cbv zeta.
      destruct (find_end_some_block _ _ E) as [Hn Hb].
      set (blk := firstn (S n) (_buffer self)) in *.
      set (self1 := set__buffer (skipn (S n) (_buffer self)) self).
      pose proof (process_block_buffer blk self1) as Hbuf.
      pose proof (process_block_quiet blk self1) as Hq.
      set (r1 := process_block blk self1) in *.
      change (_buffer self1) with (skipn (S n) (_buffer self)) in Hbuf.
      destruct (outcome_of r1) as [[]|x].
      * destruct (IH (state_of r1)) as [Hc Hall].
        unfold state_of, effects_of in *. cbn [fst snd].
        change (Log DEBUG "Parsing: {block}" [blk] :: snd (fst r1) ++
                  snd (fst (receive_loop process_block fuel (fst (fst r1)))))
          with ([Log DEBUG "Parsing: {block}" [blk]] ++ snd (fst r1) ++
                  snd (fst (receive_loop process_block fuel (fst (fst r1))))).
        rewrite !parsed_app, Hq. cbn [parsed flat_map block_of app].
        cbn [String.eqb Ascii.eqb Bool.eqb app List.concat].
        split; [|constructor; assumption].
        rewrite <- app_assoc, Hc, Hbuf. apply firstn_skipn.
      * unfold state_of, effects_of in *. cbn [fst snd].
        change (Log DEBUG "Parsing: {block}" [blk] :: snd (fst r1))
          with ([Log DEBUG "Parsing: {block}" [blk]] ++ snd (fst r1)).
        rewrite parsed_app, Hq. cbn [parsed flat_map block_of app].
        cbn [String.eqb Ascii.eqb Bool.eqb app List.concat].
        split; [|repeat constructor; assumption].
        rewrite Hbuf. rewrite app_nil_r. apply firstn_skipn.
    + rewrite receive_loop_stop by exact E. cbn. auto.
    + rewrite receive_loop_error with (e := e) by exact E. cbn. auto.
Qed.

End ReceiveLoop.

Lemma data_received_not_ascii (process_block : str -> M unit)
      (rawdata : list byte) (self : PetDoor) :
  forallb is_ascii rawdata = false ->
  data_received process_block rawdata self
  = (self, [Log ERROR "Received invalid message. Skipping." []], Ret tt).
Proof.
  intros H. unfold data_received, bytes_ne_str, when, decode_ascii.
  rewrite H. reflexivity.
Qed.

(** X2.  Conservation: whatever arrives, and whether the call returns or
    raises, the blocks handed to the processing, in order, followed by what
    stays in the buffer, are the buffer as it was followed by the decoded
    data; and every text handed to the processing is a brace block. *)
Theorem data_received_conserves
    (process_block : str -> M unit)
    (process_block_buffer :
       forall b self, _buffer (state_of (process_block b self)) = _buffer self)
    (process_block_quiet :
       forall b self, parsed (effects_of (process_block b self)) = [])
    (rawdata : list byte) (self : PetDoor) :
  List.concat (parsed (effects_of (data_received process_block rawdata self)))
    ++ _buffer (state_of (data_received process_block rawdata self))
  = _buffer self ++ decoded rawdata
  /\ Forall block
       (parsed (effects_of (data_received process_block rawdata self))).
Proof.
  unfold decoded, decode_ascii.
  destruct (forallb is_ascii rawdata) eqn:Ha.
  - rewrite (data_received_ascii process_block rawdata self Ha). cbv zeta.
    set (data := map ascii_of_byte rawdata).
    set (self1 := set__buffer (_buffer self ++ data) self).
    destruct (receive_loop_conserves process_block process_block_buffer
                process_block_quiet
                (S (List.length (_buffer self ++ data))) self1) as [Hc Hall].
    unfold state_of, effects_of in *. cbn [fst snd].
    rewrite parsed_app. cbn [parsed flat_map block_of app].
    cbn [String.eqb Ascii.eqb Bool.eqb app].
    split; assumption.
  - rewrite data_received_not_ascii by exact Ha.
    unfold state_of, effects_of. cbn. rewrite app_nil_r. auto.
Qed.

Lemma data_received_conserves_witness :
  let r := data_received (fun _ => raise (KeyError "success"))
             (list_byte_of_string "{a}{b}x") (init default_config) in
  List.concat (parsed (effects_of r)) ++ _buffer (state_of r)
  = list_ascii_of_string "{a}{b}x"
  /\ Forall block (parsed (effects_of r)).
Proof.
  intros r.
  apply (data_received_conserves (fun _ => raise (KeyError "success")));
    reflexivity.
Defined.

(** ** A buffer out of step *)

Lemma find_end_out_of_step (buf : str) :
  out_of_step buf ->
  find_end buf = Raise (IndexError "Block does not start with '{'").
Proof.
  intros (c & s & -> & Hc). unfold find_end.
  destruct (Ascii.eqb_spec c lbrace); [contradiction|reflexivity].
Qed.

Lemma out_of_step_app (buf data : str) :
  out_of_step buf -> out_of_step (buf ++ data).
Proof.
  intros (c & s & -> & Hc). exists c, (s ++ data). auto.
Qed.

Lemma data_received_out_of_step (process_block : str -> M unit)
      (rawdata : list byte) (self : PetDoor) :
  out_of_step (_buffer self ++ decoded rawdata) ->
  forallb is_ascii rawdata = true ->
  data_received process_block rawdata self
  = (set__buffer (_buffer self ++ decoded rawdata) self,
     [Log DEBUG "----------------------------------------" [];
      Log DEBUG "RX < {0}" [decoded rawdata]],
     Raise (IndexError "Block does not start with '{'")).
Proof.
  intros Hout Ha.
  rewrite (data_received_ascii process_block rawdata self Ha). cbv zeta.
  unfold decoded, decode_ascii in *. rewrite Ha in *.
  rewrite receive_loop_error
    with (e := IndexError "Block does not start with '{'").
  - reflexivity.
  - apply find_end_out_of_step. exact Hout.
Qed.

(** X3.  Once the buffer starts with a character other than an opening brace,
    it does so for good: each later chunk that decodes is appended and its
    call raises [IndexError], a chunk that does not decode is skipped, and no
    block is handed to the processing any more. *)
Theorem out_of_step_for_good (process_block : str -> M unit)
        (chunks : list (list byte)) (self : PetDoor) :
  out_of_step (_buffer self) ->
  _buffer (deliver_state (deliver process_block chunks self))
    = _buffer self ++ List.concat (map decoded chunks)
  /\ parsed (deliver_effects (deliver process_block chunks self)) = []
  /\ deliver_outcomes (deliver process_block chunks self)
     = map (fun c => if forallb is_ascii c
                     then Raise (IndexError "Block does not start with '{'")
                     else Ret tt) chunks.
Proof.
  revert self. induction chunks as [|c chunks IH]; intros self Hout.
  - cbn. rewrite app_nil_r. auto.
  - cbn [deliver map List.concat].
    destruct (forallb is_ascii c) eqn:Ha.
    + rewrite data_received_out_of_step
        by (try apply out_of_step_app; assumption).
      destruct (IH (set__buffer (_buffer self ++ decoded c) self))
        as (Hb & Hp & Ho).
      { cbn [_buffer set__buffer]. apply out_of_step_app. exact Hout. }
      unfold deliver_state, deliver_effects, deliver_outcomes in *.
      destruct (deliver process_block chunks
                  (set__buffer (_buffer self ++ decoded c) self))
        as [[s2 e2] rs]. cbn [fst snd] in *.
      rewrite Hb, Ho. cbn [_buffer set__buffer]. rewrite app_assoc.
      repeat split.
      unfold parsed in *. cbn [app flat_map block_of].
      cbn [String.eqb Ascii.eqb Bool.eqb app]. exact Hp.
    + rewrite data_received_not_ascii by exact Ha.
      destruct (IH self Hout) as (Hb & Hp & Ho).
      unfold deliver_state, deliver_effects, deliver_outcomes in *.
      destruct (deliver process_block chunks self) as [[s2 e2] rs].
      cbn [fst snd] in *. rewrite Hb, Ho.
      unfold decoded at 2, decode_ascii. rewrite Ha. cbn [app].
      repeat split. unfold parsed in *. cbn [app flat_map block_of].
      exact Hp.
Qed.

Lemma out_of_step_for_good_witness :
  let self := set__buffer (list_ascii_of_string "x") (init default_config) in
  let r := deliver (fun _ => ret tt)
             [list_byte_of_string "{a}"; list_byte_of_string "{b}"] self in
  _buffer (deliver_state r) = list_ascii_of_string "x{a}{b}"
  /\ parsed (deliver_effects r) = []
  /\ deliver_outcomes r
     = [Raise (IndexError "Block does not start with '{'");
        Raise (IndexError "Block does not start with '{'")].
Proof.
  intros self r.
  apply (out_of_step_for_good (fun _ => ret tt)
           [list_byte_of_string "{a}"; list_byte_of_string "{b}"] self).
  exists "x"%char, []. split; [reflexivity|discriminate].
Defined.



(** ** Chunks that do not decode *)

(** X5.  A chunk with a byte outside ASCII is dropped whole: but for the error
    records, the calls leave the instance, and hand over the blocks, as if
    only the chunks that decode had arrived. *)
Theorem undecodable_chunks_are_skipped (process_block : str -> M unit)
        (chunks : list (list byte)) (self : PetDoor) :
  deliver_state (deliver process_block chunks self)
  = deliver_state (deliver process_block
                     (filter (forallb is_ascii) chunks) self)
  /\ parsed (deliver_effects (deliver process_block chunks self))
     = parsed (deliver_effects (deliver process_block
                                  (filter (forallb is_ascii) chunks) self))
  /\ filter (fun r => match r with Ret _ => false | Raise _ => true end)
       (deliver_outcomes (deliver process_block chunks self))
     = filter (fun r => match r with Ret _ => false | Raise _ => true end)
         (deliver_outcomes (deliver process_block
                              (filter (forallb is_ascii) chunks) self)).
Proof.
  revert self. induction chunks as [|c chunks IH]; intros self.
  - cbn. auto.
  - cbn [filter]. destruct (forallb is_ascii c) eqn:Ha.
    + cbn [deliver].
      destruct (data_received process_block c self) as [[s1 e1] r1].
      destruct (IH s1) as (Hs & Hp & Ho).
      unfold deliver_state, deliver_effects, deliver_outcomes in *.
      destruct (deliver process_block chunks s1) as [[s2 e2] rs].
      destruct (deliver process_block (filter (forallb is_ascii) chunks) s1)
        as [[s3 e3] rs'].
      cbn [fst snd] in *. rewrite !parsed_app, Hp. cbn [filter].
      rewrite Ho, Hs. auto.
    + cbn [deliver]. rewrite data_received_not_ascii by exact Ha.
      destruct (IH self) as (Hs & Hp & Ho).
      unfold deliver_state, deliver_effects, deliver_outcomes in *.
      destruct (deliver process_block chunks self) as [[s2 e2] rs].
      destruct (deliver process_block (filter (forallb is_ascii) chunks) self)
        as [[s3 e3] rs'].
      cbn [fst snd filter] in *. unfold parsed in *.
      cbn [app flat_map block_of]. auto.
Qed.

(** ** What [process_message] touches *)





Lemma same_replyMsgId_refl (self : PetDoor) : same_replyMsgId self self [].
Proof. reflexivity. Qed.

Lemma same_replyMsgId_trans (a b c : PetDoor) (e1 e2 : list effect) :
  same_replyMsgId a b e1 -> same_replyMsgId b c e2 ->
  same_replyMsgId a c (e1 ++ e2).
Proof. unfold same_replyMsgId. congruence. Qed.

Lemma settings_setitem_same_replyMsgId (k : string) (v : json) :
  sat same_replyMsgId (settings_setitem k v).
Proof.
  intros self. unfold settings_setitem. unfold_monad. unfold same_replyMsgId.
  destruct (settings self); cbn; auto.
Qed.

Lemma state_of_bind_ret {A B : Type} (m : M A) (f : A -> M B)
      (self s1 : PetDoor) (e1 : list effect) (a : A) :
  m self = (s1, e1, Ret a) ->
  state_of (bind m f self) = state_of (f a s1).
Proof.
  intros H. unfold bind, state_of. rewrite H.
  destruct (f a s1) as [[s2 e2] r]. reflexivity.
Qed.

(** X7.  The reply-correlation id follows the [msgID] field of every inbound
    message that has one, whatever the message says and whether the processing
    raises; a message without the field leaves it alone. *)
Theorem replyMsgId_follows_msgID (now : datetime) (msg : dict)
        (self : PetDoor) :
  replyMsgId (state_of (process_message now msg self))
  = match dict_get "msgID" msg with
    | Some v => v
    | None => replyMsgId self
    end.
Proof.
  unfold process_message.
  rewrite (state_of_bind_ret _ _ self
             (match dict_get "msgID" msg with
              | Some v => set_replyMsgId v self
              | None => self
              end) [] tt).
  2:{ unfold when, dict_mem, getitem.
      destruct (dict_get "msgID" msg) as [v|]; [|reflexivity].
      rewrite bind_ret_l. reflexivity. }
  match goal with
  | |- replyMsgId (state_of (?m ?s)) = _ =>
      assert (H : sat same_replyMsgId m)
  end.
  { sat_auto same_replyMsgId_refl same_replyMsgId_trans
      ltac:(apply settings_setitem_same_replyMsgId)
      ltac:(unfold same_replyMsgId; cbn; auto). }
  rewrite H. destruct (dict_get "msgID" msg); reflexivity.
Qed.

(** ** Dicts *)

Lemma dict_get_set_same {V : Type} (k : string) (v : V)
      (d : list (string * V)) :
  dict_get k (dict_set k v d) = Some v.
Proof.
  induction d as [|[k0 v0] d IH]; cbn.
  - rewrite String.eqb_refl. reflexivity.
  - destruct (String.eqb_spec k k0) as [->|Hne]; cbn.
    + rewrite String.eqb_refl. reflexivity.
    + destruct (String.eqb_spec k k0); [contradiction|]. exact IH.
Qed.

Lemma dict_get_set_other {V : Type} (k k' : string) (v : V)
      (d : list (string * V)) :
  k <> k' -> dict_get k (dict_set k' v d) = dict_get k d.
Proof.
  intros Hne. induction d as [|[k0 v0] d IH]; cbn.
  - destruct (String.eqb_spec k k'); [contradiction|reflexivity].
  - destruct (String.eqb_spec k' k0) as [->|Hne']; cbn.
    + destruct (String.eqb_spec k k0); [contradiction|reflexivity].
    + destruct (String.eqb_spec k k0); [reflexivity|exact IH].
Qed.

Lemma dict_set_not_nil {V : Type} (k : string) (v : V)
      (d : list (string * V)) :
  dict_set k v d <> [].
Proof.
  destruct d as [|[k0 v0] d]; cbn; [discriminate|].
  destruct (k =? k0)%string; discriminate.
Qed.

(** ** How a toggle reads the cached setting *)

Ltac toggle_eval Hs Hk :=
  unfold config_toggle_inside, config_toggle_outside, config_toggle_auto,
    config_power_toggle, when, subscript, getitem;
  unfold bind at 1; unfold read at 1; rewrite Hs;
  match goal with
  | |- context [py_truthy (JObj ?d)] =>
      destruct d as [|kv d']; [discriminate Hk|]
  end;
  cbn [py_truthy]; rewrite Hk; rewrite ?bind_ret_l;
  match goal with
  | |- context [py_eq ?v (JStr "true")] =>
      destruct (py_eq v (JStr "true")); [|rewrite ?bind_ret_l;
        destruct (py_eq v (JStr "false"))]
  end;
  match goal with
  | |- (let (_, _) := ?m in _) = _ =>
      destruct m as [[s1 e1] r1]; reflexivity
  | |- _ => reflexivity
  end.

Lemma toggle_reads_setting (wr : write_result) (self : PetDoor) (d : dict)
      (v : json) :
  settings self = JObj d ->
  (dict_get "inside" d = Some v ->
   config_toggle_inside wr self
   = if py_eq v (JStr "true") then config_disable_inside wr self
     else if py_eq v (JStr "false") then config_enable_inside wr self
     else (self, [], Ret tt))
  /\ (dict_get "outside" d = Some v ->
      config_toggle_outside wr self
      = if py_eq v (JStr "true") then config_disable_outside wr self
        else if py_eq v (JStr "false") then config_enable_outside wr self
        else (self, [], Ret tt))
  /\ (dict_get "timersEnabled" d = Some v ->
      config_toggle_auto wr self
      = if py_eq v (JStr "true") then config_disable_auto wr self
        else if py_eq v (JStr "false") then config_enable_auto wr self
        else (self, [], Ret tt))
  /\ (dict_get "power_state" d = Some v ->
      config_power_toggle wr self
      = if py_eq v (JStr "true") then config_power_off wr self
        else if py_eq v (JStr "false") then config_power_on wr self
        else (self, [], Ret tt)).
Proof.
  intros Hs. repeat split; intros Hk; toggle_eval Hs Hk.
Qed.

(** ** Replies that merge into the settings *)

(** The settings after a sensor reply: [inside] and [outside] are merged
    in as the strings ["true"] and ["false"]. *)
Lemma process_sensor_reply (now : datetime) (msg : dict) (self : PetDoor)
      (c : string) (d : dict) :
  dict_get "success" msg = Some (JStr "true") ->
  dict_get "CMD" msg = Some (JStr c) ->
  In c ["GET_SENSORS"; "ENABLE_INSIDE"; "DISABLE_INSIDE";
        "ENABLE_OUTSIDE"; "DISABLE_OUTSIDE"] ->
  settings self = JObj d ->
  outcome_of (process_message now msg self) = Ret tt
  /\ settings (state_of (process_message now msg self))
     = JObj (merge_setting true_false "outside" msg
               (merge_setting true_false "inside" msg d)).
Proof.
  intros Hs Hc Hcmd Hset.
  destruct self as [cfg mi rm st lc se sd ol tr ka rf bu].
  cbn [settings] in Hset. subst se.
  unfold process_message, dict_mem, merge_setting, true_false.
  unfold_monad. rewrite Hs, Hc.
  cbn [In] in Hcmd.
  destruct (dict_get "msgID" msg) as [id|];
    destruct (dict_get "inside" msg) as [vi|];
    destruct (dict_get "outside" msg) as [vo|];
    cbn [py_eq String.eqb Ascii.eqb Bool.eqb].
  all: destruct Hcmd as [<-|[<-|[<-|[<-|[<-|[]]]]]]; cbn; auto.
Qed.

Lemma py_truthy_true_false (v : json) :
  py_eq (true_false v) (JStr "true") = py_truthy v
  /\ py_eq (true_false v) (JStr "false") = negb (py_truthy v).
Proof. unfold true_false. destruct (py_truthy v); split; reflexivity. Qed.

(** X8.  After a successful sensor reply on an instance whose settings are a
    mapping, the reply returns, the other keys of the mapping keep their
    values, and the toggle of a sensor the reply reports never raises: it
    disables the sensor when the reported value is true and enables it
    otherwise. *)
Theorem sensor_reply_then_toggle (now : datetime) (msg : dict)
        (self : PetDoor) (c : string) (d : dict) :
  dict_get "success" msg = Some (JStr "true") ->
  dict_get "CMD" msg = Some (JStr c) ->
  In c ["GET_SENSORS"; "ENABLE_INSIDE"; "DISABLE_INSIDE";
        "ENABLE_OUTSIDE"; "DISABLE_OUTSIDE"] ->
  settings self = JObj d ->
  outcome_of (process_message now msg self) = Ret tt
  /\ (exists d',
        settings (state_of (process_message now msg self)) = JObj d'
        /\ forall k, k <> "inside" -> k <> "outside" ->
                     dict_get k d' = dict_get k d)
  /\ (forall wr v,
        dict_get "inside" msg = Some v ->
        config_toggle_inside wr (state_of (process_message now msg self))
        = if py_truthy v
          then config_disable_inside wr
                 (state_of (process_message now msg self))
          else config_enable_inside wr
                 (state_of (process_message now msg self)))
  /\ (forall wr v,
        dict_get "outside" msg = Some v ->
        config_toggle_outside wr (state_of (process_message now msg self))
        = if py_truthy v
          then config_disable_outside wr
                 (state_of (process_message now msg self))
          else config_enable_outside wr
                 (state_of (process_message now msg self))).
Proof.
  intros Hs Hc Hcmd Hset.
  destruct (process_sensor_reply now msg self c d Hs Hc Hcmd Hset)
    as [Hout Hsettings].
  set (self' := state_of (process_message now msg self)) in *.
  split; [exact Hout|]. split; [|split].
  - eexists. split; [exact Hsettings|]. intros k Hi Ho.
    unfold merge_setting.
    destruct (dict_get "outside" msg), (dict_get "inside" msg);
      rewrite ?dict_get_set_other by assumption; reflexivity.
  - intros wr v Hv.
    destruct (toggle_reads_setting wr self' _ (true_false v) Hsettings)
      as (Hin & _).
    rewrite Hin.
    + destruct (py_truthy_true_false v) as [-> ->].
      destruct (py_truthy v); reflexivity.
    + unfold merge_setting. rewrite Hv.
      destruct (dict_get "outside" msg);
        rewrite ?dict_get_set_other by discriminate;
        apply dict_get_set_same.
  - intros wr v Hv.
    destruct (toggle_reads_setting wr self' _ (true_false v) Hsettings)
      as (_ & Hout' & _).
    rewrite Hout'.
    + destruct (py_truthy_true_false v) as [-> ->].
      destruct (py_truthy v); reflexivity.
    + unfold merge_setting. rewrite Hv. apply dict_get_set_same.
Qed.

Lemma sensor_reply_then_toggle_witness :
  let msg := [("CMD", JStr "ENABLE_INSIDE"); ("success", JStr "true");
              ("inside", JBool true)] in
  let self := state_of (process_message 3 msg (init default_config)) in
  config_toggle_inside WriteOk self = config_disable_inside WriteOk self.
Proof.
  intros msg self.
  destruct (sensor_reply_then_toggle 3 msg (init default_config)
              "ENABLE_INSIDE" [] eq_refl eq_refl
              (or_intror (or_introl eq_refl)) eq_refl)
    as (_ & _ & Hin & _).
  apply (Hin WriteOk (JBool true)). reflexivity.
Defined.

Lemma process_raw_reply (now : datetime) (msg : dict) (self : PetDoor)
      (c : string) (d : dict) :
  dict_get "success" msg = Some (JStr "true") ->
  dict_get "CMD" msg = Some (JStr c) ->
  settings self = JObj d ->
  (In c ["GET_POWER"; "POWER_ON"; "POWER_OFF"] ->
   outcome_of (process_message now msg self) = Ret tt
   /\ settings (state_of (process_message now msg self))
      = JObj (merge_setting (fun v => v) "power_state" msg d))
  /\ (In c ["GET_TIMERS_ENABLED"; "ENABLE_TIMERS"; "DISABLE_TIMERS"] ->
      outcome_of (process_message now msg self) = Ret tt
      /\ settings (state_of (process_message now msg self))
         = JObj (merge_setting (fun v => v) "timersEnabled" msg d)).
Proof.
  intros Hs Hc Hset.
  destruct self as [cfg mi rm st lc se sd ol tr ka rf bu].
  cbn [settings] in Hset. subst se.
  unfold process_message, dict_mem, merge_setting.
  unfold_monad. rewrite Hs, Hc.
  split; intros Hcmd; cbn [In] in Hcmd.
  all: destruct (dict_get "msgID" msg) as [id|];
    destruct (dict_get "power_state" msg) as [vp|];
    destruct (dict_get "timersEnabled" msg) as [vt|];
    cbn [py_eq String.eqb Ascii.eqb Bool.eqb].
  all: destruct Hcmd as [<-|[<-|[<-|[]]]]; cbn; auto.
Qed.

(** X9.  The power state and the timers flag are stored as the reply gives
    them.  After such a reply, on an instance whose settings are a mapping,
    the toggle turns the feature off when the reported value is the string
    ["true"], on when it is the string ["false"], and does nothing for any
    other value, a JSON boolean included. *)
Theorem raw_reply_then_toggle (now : datetime) (msg : dict)
        (self : PetDoor) (c : string) (d : dict) (v : json)
        (wr : write_result) :
  dict_get "success" msg = Some (JStr "true") ->
  dict_get "CMD" msg = Some (JStr c) ->
  settings self = JObj d ->
  (In c ["GET_POWER"; "POWER_ON"; "POWER_OFF"] ->
   dict_get "power_state" msg = Some v ->
   config_power_toggle wr (state_of (process_message now msg self))
   = if py_eq v (JStr "true")
     then config_power_off wr (state_of (process_message now msg self))
     else if py_eq v (JStr "false")
          then config_power_on wr (state_of (process_message now msg self))
          else (state_of (process_message now msg self), [], Ret tt))
  /\ (In c ["GET_TIMERS_ENABLED"; "ENABLE_TIMERS"; "DISABLE_TIMERS"] ->
      dict_get "timersEnabled" msg = Some v ->
      config_toggle_auto wr (state_of (process_message now msg self))
      = if py_eq v (JStr "true")
        then config_disable_auto wr (state_of (process_message now msg self))
        else if py_eq v (JStr "false")
             then config_enable_auto wr
                    (state_of (process_message now msg self))
             else (state_of (process_message now msg self), [], Ret tt)).
Proof.
  intros Hs Hc Hset.
  destruct (process_raw_reply now msg self c d Hs Hc Hset) as [Hp Ht].
  split; intros Hcmd Hv.
  - destruct (Hp Hcmd) as [_ Hsettings].
    destruct (toggle_reads_setting wr _ _ v Hsettings) as (_ & _ & _ & H).
    apply H. unfold merge_setting. rewrite Hv. apply dict_get_set_same.
  - destruct (Ht Hcmd) as [_ Hsettings].
    destruct (toggle_reads_setting wr _ _ v Hsettings) as (_ & _ & H & _).
    apply H. unfold merge_setting. rewrite Hv. apply dict_get_set_same.
Qed.

Lemma raw_reply_then_toggle_witness :
  let msg := [("CMD", JStr "GET_POWER"); ("success", JStr "true");
              ("power_state", JBool true)] in
  let self := state_of (process_message 3 msg (init default_config)) in
  config_power_toggle WriteOk self = (self, [], Ret tt).
Proof.
  intros msg self.
  apply (proj1 (raw_reply_then_toggle 3 msg (init default_config)
                  "GET_POWER" [] (JBool true) WriteOk
                  eq_refl eq_refl eq_refl)).
  - cbn. auto.
  - reflexivity.
Defined.

(** ** Successful replies that lack a field *)

(** X10.  A reply marked successful that lacks a field raises [KeyError].
    Without [CMD] nothing but the reply-correlation id changes.  A door-status
    reply without [door_status] leaves the status and the time of the last
    change as they were.  A [GET_SETTINGS] reply without [settings] has
    cancelled the refresh task by then, and neither clears the attribute nor
    schedules a new task; the settings stay. *)
Theorem successful_reply_missing_field (now : datetime) (msg : dict)
        (self : PetDoor) :
  dict_get "success" msg = Some (JStr "true") ->
  (dict_get "CMD" msg = None ->
   process_message now msg self
   = (match dict_get "msgID" msg with
      | Some v => set_replyMsgId v self
      | None => self
      end, [], Raise (KeyError "CMD")))
  /\ (forall c,
        dict_get "CMD" msg = Some (JStr c) ->
        c = "GET_DOOR_STATUS" \/ c = "DOOR_STATUS" ->
        dict_get "door_status" msg = None ->
        process_message now msg self
        = (match dict_get "msgID" msg with
           | Some v => set_replyMsgId v self
           | None => self
           end, [], Raise (KeyError "door_status")))
  /\ (dict_get "CMD" msg = Some (JStr "GET_SETTINGS") ->
      dict_get "settings" msg = None ->
      process_message now msg self
      = (match dict_get "msgID" msg with
         | Some v => set_replyMsgId v self
         | None => self
         end,
         match _refresh self with
         | Some t => [Cancel t]
         | None => []
         end, Raise (KeyError "settings"))).
Proof.
  intros Hs. split; [|split].
  - intros Hc. unfold process_message, dict_mem. unfold_monad.
    rewrite Hs, Hc.
    destruct (dict_get "msgID" msg); reflexivity.
  - intros c Hc Hcmd Hd. unfold process_message, dict_mem. unfold_monad.
    rewrite Hs, Hc, Hd.
    destruct self as [cfg mi rm st lc se sd ol tr ka rf bu].
    destruct (dict_get "msgID" msg); destruct Hcmd as [-> | ->];
      destruct st; reflexivity.
  - intros Hc Hd. unfold process_message, dict_mem. unfold_monad.
    rewrite Hs, Hc, Hd.
    destruct self as [cfg mi rm st lc se sd ol tr ka rf bu].
    destruct (dict_get "msgID" msg); destruct rf; reflexivity.
Qed.

Lemma successful_reply_missing_field_witness :
  let msg := [("CMD", JStr "GET_SETTINGS"); ("success", JStr "true")] in
  let self := set__refresh (Some (Task Refresh)) (init default_config) in
  process_message 0 msg self
  = (self, [Cancel (Task Refresh)], Raise (KeyError "settings")).
Proof.
  intros msg self.
  apply (proj2 (proj2 (successful_reply_missing_field 0 msg self eq_refl)));
    reflexivity.
Defined.

(** ** Histories over the whole class *)

(** Unfolds the entries down to the methods of the class. *)
Ltac entry_unfold :=
  cbv [perform_entry connect reconnect async_added_to_hass
       async_will_remove_from_hass async_turn_on async_turn_off].

(** As [sat_auto], for methods that reach [send_data] unfolded. *)
Ltac sat_deep Hrefl Htrans leaf fin :=
  sat_unfold;
  repeat first [ sat_step Hrefl Htrans leaf fin
               | progress cbv [cancel_if_set when] ].

Section Play.

Variable R : PetDoor -> PetDoor -> list effect -> Prop.
Hypothesis R_refl : forall self, R self self [].
Hypothesis R_trans : forall a b c e1 e2,
    R a b e1 -> R b c e2 -> R a c (e1 ++ e2).
Variable allowed : entry -> bool.
Hypothesis R_entry : forall x, allowed x = true -> sat R (perform_entry x).

Lemma play_sat (xs : list entry) :
  forallb allowed xs = true ->
  forall self, R self (play_state (play xs self)) (play_effects (play xs self)).
Proof.
  induction xs as [|x xs IH]; intros Hxs self.
  - apply R_refl.
  - cbn [forallb] in Hxs. apply andb_true_iff in Hxs as [Hx Hxs].
    cbn [play]. pose proof (R_entry x Hx self) as H1.
    unfold state_of, effects_of, play_state, play_effects in *.
    destruct (perform_entry x self) as [[s1 e1] r]. cbn [fst snd] in *.
    specialize (IH Hxs s1).
    destruct (play xs s1) as [s2 e2]. cbn [fst snd] in *.
    eapply R_trans; eassumption.
Qed.

End Play.

(** *** Commands and the cached state *)

Lemma cached_state_kept_refl (self : PetDoor) :
  cached_state_kept self self [].
Proof. unfold cached_state_kept. auto 10. Qed.

Lemma cached_state_kept_trans (a b c : PetDoor) (e1 e2 : list effect) :
  cached_state_kept a b e1 -> cached_state_kept b c e2 ->
  cached_state_kept a c (e1 ++ e2).
Proof.
  unfold cached_state_kept.
  intros (A1 & A2 & A3 & A4 & A5 & A6 & A7 & A8 & A9)
         (B1 & B2 & B3 & B4 & B5 & B6 & B7 & B8 & B9).
  repeat split; congruence.
Qed.

Lemma perform_entry_cached_state (x : entry) :
  is_command x = true -> sat cached_state_kept (perform_entry x).
Proof.
  destruct x as [c| | | | | |]; try discriminate;
    [destruct c; try discriminate|..]; intros _; entry_unfold;
    sat_deep cached_state_kept_refl cached_state_kept_trans
      ltac:(fail)
      ltac:(unfold cached_state_kept; cbn; auto 10).
Qed.

(** X11.  Sending never changes what the instance knows of the device: over
    any history of commands, configuration requests, toggles and calls of
    [async_turn_on] and [async_turn_off], whether they reach the transport or not and
    whether a toggle raises, the status, the time of its last change, the
    settings and the reply-correlation id stay as they were, and so do the
    receive buffer, the transport and the shutdown flag. *)
Theorem commands_keep_cached_state (xs : list entry) (self : PetDoor) :
  forallb is_command xs = true ->
  cached_state_kept self (play_state (play xs self))
    (play_effects (play xs self)).
Proof.
  intros H. apply (play_sat cached_state_kept cached_state_kept_refl
                     cached_state_kept_trans is_command
                     perform_entry_cached_state xs H).
Qed.

Lemma commands_keep_cached_state_witness :
  let self := set_status (JStr "DOOR_CLOSED")
                (set__transport (Some 0%nat) (init default_config)) in
  let xs := [EntryTurnOn WriteOk None;
             EntryCall (CallConfigToggleInside WriteOk);
             EntryCall (CallCmdClose WriteRuntimeError)] in
  status (play_state (play xs self)) = JStr "DOOR_CLOSED".
Proof.
  intros self xs.
  apply (commands_keep_cached_state xs self). reflexivity.
Defined.

(** *** Writes and the keepalive *)

Lemma writes_rearmed_app_bounded (n : nat) :
  forall e1 e2,
    (List.length e1 <= n)%nat ->
    writes_rearmed e1 = true -> writes_rearmed e2 = true ->
    writes_rearmed (e1 ++ e2) = true.
Proof.
  induction n as [|n IH]; intros e1 e2 Hn H1 H2.
  - destruct e1; [exact H2|cbn in Hn; lia].
  - destruct e1 as [|x e1]; [exact H2|].
    cbn [List.length] in Hn.
    destruct x; try (cbn [app writes_rearmed] in *; apply IH; auto; lia).
    cbn [writes_rearmed] in H1.
    destruct e1 as [|y e1]; [discriminate|].
    destruct y as [| c | | | | | | |]; try discriminate.
    destruct c; try discriminate.
    cbn [app writes_rearmed]. cbn [List.length] in Hn.
    apply IH; auto. lia.
Qed.

Lemma keeps_rearmed_refl (self : PetDoor) : keeps_rearmed self self [].
Proof. reflexivity. Qed.

Lemma keeps_rearmed_trans (a b c : PetDoor) (e1 e2 : list effect) :
  keeps_rearmed a b e1 -> keeps_rearmed b c e2 ->
  keeps_rearmed a c (e1 ++ e2).
Proof.
  unfold keeps_rearmed. intros H1 H2.
  apply (writes_rearmed_app_bounded (List.length e1)); auto.
Qed.

Lemma send_data_rearmed (wr : write_result) (data : dict) :
  sat keeps_rearmed (send_data wr data).
Proof.
  intros self. unfold send_data, schedule_reconnect, keeps_rearmed.
  unfold_monad.
  destruct (_transport self); [|reflexivity].
  destruct (_keepalive self), wr; cbn;
    try destruct (_shutdown self); reflexivity.
Qed.

Lemma settings_setitem_rearmed (k : string) (v : json) :
  sat keeps_rearmed (settings_setitem k v).
Proof.
  intros self. unfold settings_setitem, keeps_rearmed. unfold_monad.
  destruct (settings self); reflexivity.
Qed.

Lemma perform_entry_rearmed (x : entry) :
  sat keeps_rearmed (perform_entry x).
Proof.
  destruct x as [c| | | | | |]; [destruct c|..]; entry_unfold;
    sat_deep keeps_rearmed_refl keeps_rearmed_trans
      ltac:(first [ apply send_data_rearmed
                  | apply settings_setitem_rearmed ])
      ltac:(reflexivity).
Qed.

(** X12.  Over any history, every write to the transport is followed at once
    by the scheduling of a keepalive. *)
Theorem every_write_rearms_keepalive (xs : list entry) (self : PetDoor) :
  writes_rearmed (play_effects (play xs self)) = true.
Proof.
  apply (play_sat keeps_rearmed keeps_rearmed_refl keeps_rearmed_trans
           (fun _ => true) (fun x _ => perform_entry_rearmed x) xs).
  induction xs; auto.
Qed.

(** *** The loop *)










(** *** Ids on the wire *)

Lemma wire_id_outbound (type arg : string) (id : Z) :
  wire_id (outbound type arg id) = JNum id.
Proof.
  unfold wire_id, outbound.
  rewrite dict_get_set_other by discriminate.
  rewrite dict_get_set_same. reflexivity.
Qed.

Lemma written_app (e1 e2 : list effect) :
  written (e1 ++ e2) = written e1 ++ written e2.
Proof. apply flat_map_app. Qed.

Lemma ids_in_order_refl (self : PetDoor) : ids_in_order self self [].
Proof.
  unfold ids_in_order. split; [lia|]. exists []. cbn.
  repeat split; constructor.
Qed.

Lemma StronglySorted_app_lt (l1 l2 : list Z) (m : Z) :
  StronglySorted Z.lt l1 -> StronglySorted Z.lt l2 ->
  Forall (fun z => z < m) l1 -> Forall (fun z => m <= z) l2 ->
  StronglySorted Z.lt (l1 ++ l2).
Proof.
  intros H1 H2 Hl Hr. induction H1 as [|z l1 _ IH Hz]; [exact H2|].
  cbn [app]. apply Forall_cons_iff in Hl as [Hzm Hl].
  constructor; [apply IH; exact Hl|].
  apply Forall_app. split; [exact Hz|].
  eapply Forall_impl; [|exact Hr]. cbn. intros; lia.
Qed.

Lemma ids_in_order_trans (a b c : PetDoor) (e1 e2 : list effect) :
  ids_in_order a b e1 -> ids_in_order b c e2 ->
  ids_in_order a c (e1 ++ e2).
Proof.
  unfold ids_in_order.
  intros (Hab & z1 & E1 & S1 & F1) (Hbc & z2 & E2 & S2 & F2).
  split; [lia|]. exists (z1 ++ z2).
  rewrite written_app, !map_app, E1, E2. split; [reflexivity|]. split.
  - apply (StronglySorted_app_lt z1 z2 (msgId b)); auto.
    + eapply Forall_impl; [|exact F1]. cbn. intros; lia.
    + eapply Forall_impl; [|exact F2]. cbn. intros; lia.
  - apply Forall_app. split.
    + eapply Forall_impl; [|exact F1]. cbn. intros; lia.
    + eapply Forall_impl; [|exact F2]. cbn. intros; lia.
Qed.

Lemma ids_in_order_quiet (a b : PetDoor) (e : list effect) :
  msgId b = msgId a -> written e = [] -> ids_in_order a b e.
Proof.
  intros Hm Hw. unfold ids_in_order. rewrite Hm, Hw. split; [lia|].
  exists []. cbn. repeat split; constructor.
Qed.

Lemma send_message_ids_in_order (wr : write_result) (type arg : string) :
  sat ids_in_order (send_message wr type arg).
Proof.
  intros self.
  destruct self as [cfg mi rm st lc se sd ol tr ka rf bu].
  unfold send_message, send_data, schedule_reconnect, ids_in_order.
  unfold_monad. cbn -[outbound].
  destruct tr as [t|]; cbn -[outbound].
  - destruct ka, wr; cbn -[outbound]; try destruct sd; cbn -[outbound].
    all: split; [lia|].
    all: first
      [ exists [mi]; cbn -[outbound]; rewrite wire_id_outbound;
        split; [reflexivity|]; split;
        [repeat constructor|repeat constructor; lia]
      | exists []; cbn; repeat split; constructor ].
  - split; [lia|]. exists []. cbn. repeat split; constructor.
Qed.

Lemma settings_setitem_ids_in_order (k : string) (v : json) :
  sat ids_in_order (settings_setitem k v).
Proof.
  intros self. unfold settings_setitem. unfold_monad.
  destruct (settings self); cbn; apply ids_in_order_quiet; reflexivity.
Qed.

Ltac ids_unfold :=
  cbv [perform_entry perform_call connect reconnect async_added_to_hass
       async_will_remove_from_hass async_turn_on async_turn_off
       start stop connection_made disconnect process_message
       async_update cmd_open cmd_open_and_hold cmd_close
       config_disable_inside config_enable_inside config_toggle_inside
       config_disable_outside config_enable_outside config_toggle_outside
       config_disable_auto config_enable_auto config_toggle_auto
       config_power_on config_power_off config_power_toggle when
       cancel_if_set subscript].

Lemma perform_entry_ids_in_order (x : entry) :
  negb (is_raw_send x) = true -> sat ids_in_order (perform_entry x).
Proof.
  destruct x as [c| | | | | |]; [destruct c|..]; intros Hx;
    try discriminate Hx; ids_unfold;
    repeat first
      [ sat_step ids_in_order_refl ids_in_order_trans
          ltac:(first [ apply send_message_ids_in_order
                      | apply settings_setitem_ids_in_order ])
          ltac:(apply ids_in_order_quiet; reflexivity)
      | progress cbv [cancel_if_set when] ].
Qed.

(** X14.  Over any history in which [send_data] is called through
    [send_message] only, the messages written to the transport carry integer
    ids in strictly increasing order, none below the counter the history
    started from and all below the counter it ends with. *)
Theorem wire_ids_increase (xs : list entry) (self : PetDoor) :
  forallb (fun x => negb (is_raw_send x)) xs = true ->
  exists zs,
    map wire_id (written (play_effects (play xs self))) = map JNum zs
    /\ StronglySorted Z.lt zs
    /\ Forall (fun z => msgId self <= z < msgId (play_state (play xs self)))
         zs.
Proof.
  intros H.
  apply (play_sat ids_in_order ids_in_order_refl ids_in_order_trans
           (fun x => negb (is_raw_send x)) perform_entry_ids_in_order xs H).
Qed.

Lemma wire_ids_increase_witness :
  let self := set__transport (Some 0%nat) (init default_config) in
  let xs := [EntryConnect (Connected WriteOk 1%nat);
             EntryCall (CallSendMessage WriteRuntimeError PING "17");
             EntryTurnOn WriteOk (Some false)] in
  exists zs,
    map wire_id (written (play_effects (play xs self))) = map JNum zs
    /\ StronglySorted Z.lt zs
    /\ Forall (fun z => 1 <= z < msgId (play_state (play xs self))) zs.
Proof.
  intros self xs. apply (wire_ids_increase xs self). reflexivity.
Defined.

(** ** Connecting *)

(** X15.  On a successful connection whose first write goes through, whatever
    the instance held before: the new transport is stored, exactly one message
    is written, on the new transport, and it is the [GET_SETTINGS] request
    with the current id; the keepalive started by [connection_made] is
    cancelled by its own send and replaced, and a keepalive tracked before is
    overwritten without being cancelled. *)
Theorem connection_made_sends_settings_request (t : transport)
        (self : PetDoor) :
  connection_made WriteOk t self
  = (set__keepalive (Some (Task Keepalive))
       (set_msgId (msgId self + 1) (set__transport (Some t) self)),
     [Log INFO "Connection Successful!" [];
      EnsureFuture Keepalive;
      Cancel (Task Keepalive);
      Log DEBUG "TX > {0}" [];
      TransportWrite t (outbound CONFIG "GET_SETTINGS" (msgId self));
      EnsureFuture Keepalive],
     Ret tt).
Proof.
  destruct self as [cfg mi rm st lc se sd ol tr ka rf bu].
  reflexivity.
Qed.

(** X16.  [connect] never raises.  A failed attempt schedules one reconnect
    with the configured delay unless shutdown was requested, writes nothing
    and leaves the instance as it was; a successful one schedules a reconnect
    only if its first write fails. *)
Theorem connect_returns (res : connect_result) (self : PetDoor) :
  outcome_of (connect res self) = Ret tt
  /\ reconnects (effects_of (connect res self))
     = match res with
       | ConnectFailed
       | Connected WriteRuntimeError _ =>
           if _shutdown self then [] else [reconnect_delay self]
       | Connected WriteOk _ => []
       end
  /\ (res = ConnectFailed ->
      state_of (connect res self) = self
      /\ written (effects_of (connect res self)) = []).
Proof.
  destruct self as [cfg mi rm st lc se sd ol tr ka rf bu].
  destruct res as [[|] t|]; destruct sd; cbn;
    repeat split; try discriminate; reflexivity.
Qed.

(** X17.  [reconnect] never reaches [connect]: it ends in the [NameError] of
    [disconnect], so it makes no connection attempt, schedules nothing and
    leaves the instance without transport. *)
Theorem reconnect_stops_at_disconnect (delay : seconds)
        (res : connect_result) (self : PetDoor) :
  reconnect delay res self = disconnect self
  /\ outcome_of (reconnect delay res self) = Raise (NameError "self_")
  /\ _transport (state_of (reconnect delay res self)) = None
  /\ forallb (fun e => match e with
                       | EnsureFuture _ | TransportWrite _ _ => false
                       | _ => true
                       end) (effects_of (reconnect delay res self)) = true.
Proof.
  destruct self as [cfg mi rm st lc se sd ol tr ka rf bu].
  destruct ka, rf, tr; cbn; auto.
Qed.

(** ** Views *)

(** X18.  [available] is [None] on a new instance and after [disconnect], and
    after [connection_made] it is the negation of what the transport answers
    to [is_closing]. *)
Theorem available_follows_transport (closing : bool) :
  (forall cfg, available closing (init cfg) = JNull)
  /\ (forall self,
        available closing (state_of (disconnect self)) = JNull)
  /\ (forall wr t self,
        available closing (state_of (connection_made wr t self))
        = JBool (negb closing))
  /\ (forall self, py_truthy (available closing self) = true
                   <-> (exists t, _transport self = Some t)
                       /\ closing = false).
Proof.
  repeat split.
  - intros self. destruct self as [cfg mi rm st lc se sd ol tr ka rf bu].
    destruct ka, rf, tr; reflexivity.
  - intros wr t self.
    destruct self as [cfg mi rm st lc se sd ol tr ka rf bu].
    destruct wr, sd; reflexivity.
  - unfold available in H. destruct (_transport self); [eauto|discriminate].
  - unfold available in H. destruct (_transport self); [|discriminate].
    destruct closing; [discriminate|reflexivity].
  - intros [[t Ht] ->]. unfold available. rewrite Ht. reflexivity.
Qed.

Lemma py_in_two (v : json) (s t : string) :
  py_in v [s; t] = true <-> v = JStr s \/ v = JStr t.
Proof.
  unfold py_in. cbn [existsb]. rewrite orb_false_r, orb_true_iff.
  split; intros [H|H]; [left|right|left|right].
  - destruct v; cbn in H; try discriminate.
    apply String.eqb_eq in H. congruence.
  - destruct v; cbn in H; try discriminate.
    apply String.eqb_eq in H. congruence.
  - subst v. cbn. apply String.eqb_refl.
  - subst v. cbn. apply String.eqb_refl.
Qed.

(** X19.  The entity is off exactly when the status is the string [DOOR_IDLE]
    or the string [DOOR_CLOSED]; for every other status, a missing one
    included, it is on, and the icon goes with it. *)
Theorem is_on_iff (self : PetDoor) :
  (is_on self = false
   <-> status self = JStr "DOOR_IDLE" \/ status self = JStr "DOOR_CLOSED")
  /\ (icon self = "mdi:dog-side-off"
      <-> status self = JStr "DOOR_IDLE" \/ status self = JStr "DOOR_CLOSED")
  /\ (icon self = "mdi:dog-side" <-> is_on self = true).
Proof.
  assert (H : is_on self = false
              <-> status self = JStr "DOOR_IDLE"
                  \/ status self = JStr "DOOR_CLOSED").
  { unfold is_on. rewrite negb_false_iff. apply py_in_two. }
  split; [exact H|]. unfold icon. split.
  - rewrite <- H. destruct (is_on self); split; congruence.
  - destruct (is_on self); split; congruence.
Qed.

(** ** The state attributes *)

Lemma dict_mem_set_iff {V : Type} (k k' : string) (v : V)
      (d : list (string * V)) :
  dict_mem k (dict_set k' v d) = true <-> k = k' \/ dict_mem k d = true.
Proof.
  unfold dict_mem. destruct (String.eqb_spec k k') as [->|Hne].
  - rewrite dict_get_set_same. tauto.
  - rewrite dict_get_set_other by exact Hne.
    destruct (dict_get k d); split; auto.
    intros [H|H]; [contradiction|discriminate].
Qed.

(** X20.  When the settings are a mapping, the state attributes are a mapping
    too: it has the keys of the settings, with [status] when the status is a
    true value and [last_change] when a change was recorded, and no other; the
    status and the rendered time take the place of settings of these names;
    every other key has its value in the settings. *)
Theorem extra_state_attributes_of_mapping
        (isoformat : datetime -> string) (self : PetDoor) (d : dict) :
  settings self = JObj d ->
  exists data,
    extra_state_attributes isoformat self = Ret (JObj data)
    /\ (forall k,
          dict_mem k data = true
          <-> dict_mem k d = true
              \/ (k = "status" /\ py_truthy (status self) = true)
              \/ (k = "last_change" /\ last_change self <> None))
    /\ (py_truthy (status self) = true ->
        dict_get "status" data = Some (status self))
    /\ (forall t, last_change self = Some t ->
                  dict_get "last_change" data = Some (JStr (isoformat t)))
    /\ (forall k, k <> "status" -> k <> "last_change" ->
                  dict_get k data = dict_get k d).
Proof.
  intros Hs. unfold extra_state_attributes. rewrite Hs.
  destruct (py_truthy (status self)) eqn:Hst;
    destruct (last_change self) as [t|] eqn:Hlc; cbn [py_setitem];
    eexists; (split; [reflexivity|]); (split; [|split; [|split]]).
  all: try solve [ intros k; rewrite ?dict_mem_set_iff;
                   intuition (try congruence; try discriminate) ].
  all: try solve [ intros _; rewrite ?dict_get_set_other by discriminate;
                   apply dict_get_set_same ].
  all: try solve [ intros H; discriminate H ].
  all: try solve [ intros t' Ht';
                   first [ discriminate Ht'
                         | injection Ht' as <-; apply dict_get_set_same ] ].
  all: intros k H1 H2; rewrite ?dict_get_set_other by assumption;
    reflexivity.
Qed.

Lemma extra_state_attributes_of_mapping_witness :
  exists data,
    extra_state_attributes (fun _ => "2026-01-01T00:00:00+00:00")
      (set_last_change (Some 5)
         (set_status (JStr "DOOR_CLOSED")
            (set_settings (JObj [("status", JStr "shadowed")])
               (init default_config))))
    = Ret (JObj data)
    /\ dict_get "status" data = Some (JStr "DOOR_CLOSED").
Proof.
  destruct (extra_state_attributes_of_mapping
              (fun _ => "2026-01-01T00:00:00+00:00")
              (set_last_change (Some 5)
                 (set_status (JStr "DOOR_CLOSED")
                    (set_settings (JObj [("status", JStr "shadowed")])
                       (init default_config))))
              [("status", JStr "shadowed")] eq_refl)
    as (data & E & _ & Hst & _).
  exists data. split; [exact E|]. apply Hst. reflexivity.
Defined.

(** X21.  When the settings are not a mapping, the state attributes are the
    settings themselves as long as there is neither a true status nor a
    recorded change, and [TypeError] otherwise. *)
Theorem extra_state_attributes_of_other
        (isoformat : datetime -> string) (self : PetDoor) :
  (forall d, settings self <> JObj d) ->
  extra_state_attributes isoformat self
  = if py_truthy (status self) then Raise TypeError
    else match last_change self with
         | Some _ => Raise TypeError
         | None => Ret (settings self)
         end.
Proof.
  intros Hs. unfold extra_state_attributes.
  destruct (settings self) eqn:E; try (exfalso; eapply Hs; reflexivity).
  all: destruct (py_truthy (status self)); [reflexivity|].
  all: destruct (last_change self); reflexivity.
Qed.

Lemma extra_state_attributes_of_other_witness :
  extra_state_attributes (fun _ => "t")
    (set_status (JStr "DOOR_IDLE")
       (set_settings JNull (init default_config)))
  = Raise TypeError.
Proof.
  apply (extra_state_attributes_of_other (fun _ => "t")
           (set_status (JStr "DOOR_IDLE")
              (set_settings JNull (init default_config)))).
  intros d. discriminate.
Defined.

(** ** Turning on *)

(** X22.  [async_turn_on] opens and holds when [hold] is true, opens when it
    is false, and follows the configured default only when [hold] is not
    given; in each case it is the one command, and it assigns one id. *)
Theorem async_turn_on_chooses (wr : write_result) (hold : option bool)
        (self : PetDoor) :
  async_turn_on wr hold self
  = (if match hold with
        | Some h => h
        | None => CONF_HOLD (config self)
        end
     then cmd_open_and_hold wr self
     else cmd_open wr self)
  /\ msgId (state_of (async_turn_on wr hold self)) = msgId self + 1
  /\ outcome_of (async_turn_on wr hold self) = Ret tt.
Proof.
  assert (E : async_turn_on wr hold self
              = (if match hold with
                    | Some h => h
                    | None => CONF_HOLD (config self)
                    end
                 then cmd_open_and_hold wr self
                 else cmd_open wr self)).
  { unfold async_turn_on. unfold bind at 1. unfold read at 1.
    destruct (match hold with Some h => h | None => CONF_HOLD (config self) end).
    - destruct (cmd_open_and_hold wr self) as [[s e] r]. reflexivity.
    - destruct (cmd_open wr self) as [[s e] r]. reflexivity. }
  split; [exact E|]. rewrite E.
  destruct (match hold with Some h => h | None => CONF_HOLD (config self) end).
  - unfold cmd_open_and_hold.
    destruct (send_message_returns wr COMMAND "OPEN_AND_HOLD" self)
      as (Ho & Hm & _).
    unfold bind, ret, state_of, outcome_of in *.
    destruct (send_message wr COMMAND "OPEN_AND_HOLD" self) as [[s e] r].
    cbn in *. subst r. cbn. auto.
  - unfold cmd_open.
    destruct (send_message_returns wr COMMAND "OPEN" self) as (Ho & Hm & _).
    unfold bind, ret, state_of, outcome_of in *.
    destruct (send_message wr COMMAND "OPEN" self) as [[s e] r].
    cbn in *. subst r. cbn. auto.
Qed.

(** ** Signals and services *)

Lemma append_empty_r (s : string) : String.append s EmptyString = s.
Proof. induction s as [|c s IH]; cbn; [reflexivity | now rewrite IH]. Qed.

Ltac in_templates H :=
  unfold signal_templates in H; cbn [In] in H;
  repeat (destruct H as [H | H]; [subst |]); [.. | contradiction].

(** Comparing two formatted signals compares the templates and the entity
    ids. *)
Lemma format_eqb (s1 s2 e1 e2 : string) :
  In s1 signal_templates -> In s2 signal_templates ->
  String.eqb (format s1 e1) (format s2 e2)
  = (String.eqb s1 s2 && String.eqb e1 e2)%bool.
Proof.
  intros H1 H2.
  in_templates H1; in_templates H2;
    cbn; rewrite ?append_empty_r; reflexivity.
Qed.

(** X23.  Two signals built from the module's templates are the same string
    only when both the template and the entity id are the same. *)
Theorem signal_names_distinct (s1 s2 e1 e2 : string) :
  In s1 signal_templates -> In s2 signal_templates ->
  format s1 e1 = format s2 e2 -> s1 = s2 /\ e1 = e2.
Proof.
  intros H1 H2 Heq.
  apply String.eqb_eq in Heq. rewrite (format_eqb _ _ _ _ H1 H2) in Heq.
  apply andb_true_iff in Heq as [Hs He].
  split; now apply String.eqb_eq.
Qed.

Lemma signal_names_distinct_witness :
  SIGNAL_POWER_OFF = SIGNAL_POWER_OFF /\ "switch.door" = "switch.door".
Proof.
  apply (signal_names_distinct SIGNAL_POWER_OFF SIGNAL_POWER_OFF
           "switch.door" "switch.door").
  - cbn. tauto.
  - cbn. tauto.
  - reflexivity.
Defined.



